(** * data-pipe: a shallow embedding of the CDC pipeline

    The development follows the Go packages of the repository:

    - [bson]     the dynamically typed documents ([bson.M], [interface{}])
                 that the MongoDB driver hands to the source adapter, with
                 the [%v] verb of [fmt.Sprintf] on them;
    - [pipeline] the [Event] record exchanged between the stages;
    - [config]   [pkg/config/config.go];
    - [source]   [pkg/source/mongodb.go];
    - [main]     the wiring of [cmd/data-pipe/main.go].

    The packages [pkg/transform], [pkg/sink] and [pkg/pipeline] are named by
    [main.go] but their files are not at hand; the modules [transform], [sink]
    and [orchestrator] model them from the specification, and say so at each
    definition.  The module [mongo] holds the one fact about the driver that
    [Close] depends on.

    Logger calls are left out: no statement below is about log output. *)

From Stdlib Require Import Ascii String.
From stdpp Require Import base gmap strings list pretty sorting.

Set Warnings "-register-all".
Open Scope string_scope.

(** ** Documents *)

Module bson.

(** The values an [interface{}] holds after the driver decoded a document into
    a [bson.M]: nested documents are again [bson.M], arrays are
    [primitive.A].  Only the dynamic type matters to the adapter (it uses the
    type assertions [.(string)] and [.(bson.M)]). *)
Inductive value : Type :=
  | VNil
  | VBool (b : bool)
  | VInt (n : Z)
  | VString (s : string)
  | VArray (l : list value)
  | VDoc (m : gmap string value).

(** [bson.M], a Go map from field names to values. *)
Abbreviation M := (gmap string value).

(** [v.(string)] with the comma-ok form. *)
Definition as_string (v : option value) : option string :=
  match v with
  | Some (VString s) => Some s
  | _ => None
  end.

(** [v.(bson.M)] with the comma-ok form. *)
Definition as_M (v : option value) : option M :=
  match v with
  | Some (VDoc m) => Some m
  | _ => None
  end.

(** Go prints a map with its keys sorted; strings compare bytewise. *)
Definition key_le (a b : string * string) : Prop := String.leb a.1 b.1.

#[global] Instance key_le_dec a b : Decision (key_le a b).
Proof. unfold key_le. apply _. Defined.

Definition print_entry (kv : string * string) : string :=
  kv.1 ++ ":" ++ kv.2.

Definition print_map (entries : list (string * string)) : string :=
  "map[" ++ String.concat " " (print_entry <$> merge_sort key_le entries) ++ "]".

(** [fmt.Sprintf("%v", v)]. *)
Fixpoint Sprintf_v (v : value) : string :=
  match v with
  | VNil => "<nil>"
  | VBool b => if b then "true" else "false"
  | VInt n => pretty n
  | VString s => s
  | VArray l => "[" ++ String.concat " " (Sprintf_v <$> l) ++ "]"
  | VDoc m =>
      print_map (map_fold (λ k x acc, (k, Sprintf_v x) :: acc) [] m)
  end.

End bson.

(** ** Events *)

Module pipeline.

(** [pipeline.Event], with the fields the source adapter assigns.  [Data] is a
    Go map and may be [nil]: [None] is the nil map, [Some ∅] an allocated
    empty one. *)
Record Event : Type := mkEvent {
  ID : string;
  Operation : string;
  Source : string;
  Database : string;
  Collection : string;
  Data : option bson.M;
  Timestamp : Z
}.

Definition set_ID (e : Event) (x : string) : Event :=
  mkEvent x (Operation e) (Source e) (Database e) (Collection e) (Data e) (Timestamp e).

Definition set_Operation (e : Event) (x : string) : Event :=
  mkEvent (ID e) x (Source e) (Database e) (Collection e) (Data e) (Timestamp e).

Definition set_Data (e : Event) (x : option bson.M) : Event :=
  mkEvent (ID e) (Operation e) (Source e) (Database e) (Collection e) x (Timestamp e).

(** [len(e.Data)]; the length of a nil map is 0. *)
Definition data_len (e : Event) : nat :=
  match Data e with
  | Some d => size d
  | None => 0
  end.

End pipeline.

(** ** Configuration: [pkg/config/config.go] *)

Module config.

(** What [encoding/json] stores in an [interface{}].  The adapter never
    inspects a number, so its carrier [float64] stays abstract. *)
Inductive jvalue (float64 : Type) : Type :=
  | JNull
  | JBool (b : bool)
  | JNumber (f : float64)
  | JString (s : string)
  | JArray (l : list (jvalue float64))
  | JObject (m : gmap string (jvalue float64)).

Arguments JNull {float64}.
Arguments JBool {float64} b.
Arguments JNumber {float64} f.
Arguments JString {float64} s.
Arguments JArray {float64} l.
Arguments JObject {float64} m.

(** [Settings] is a Go map; a missing ["settings"] key leaves it nil, and
    indexing a nil map behaves like indexing an empty one, so both are [∅]. *)
Record SourceConfig (float64 : Type) : Type := mkSourceConfig {
  source_Type : string;
  source_Settings : gmap string (jvalue float64)
}.

Record SinkConfig (float64 : Type) : Type := mkSinkConfig {
  sink_Type : string;
  sink_Settings : gmap string (jvalue float64)
}.

Arguments mkSourceConfig {float64} _ _.
Arguments source_Type {float64} _.
Arguments source_Settings {float64} _.
Arguments mkSinkConfig {float64} _ _.
Arguments sink_Type {float64} _.
Arguments sink_Settings {float64} _.

(** [val, ok := settings[key].(string)] *)
Definition assert_string {float64} (v : option (jvalue float64)) : option string :=
  match v with
  | Some (JString s) => Some s
  | _ => None
  end.

(** [func (s SourceConfig) GetString(key string) string] *)
Definition SourceConfig_GetString {float64} (s : SourceConfig float64) (key : string) : string :=
  match assert_string (source_Settings s !! key) with
  | Some val => val
  | None => EmptyString
  end.

(** [func (s SinkConfig) GetString(key string) string] *)
Definition SinkConfig_GetString {float64} (s : SinkConfig float64) (key : string) : string :=
  match assert_string (sink_Settings s !! key) with
  | Some val => val
  | None => EmptyString
  end.

(** [PipelineConfig] *)
Record PipelineConfig : Type := mkPipelineConfig {
  Name : string
}.

(** [Config] *)
Record Config (float64 : Type) : Type := mkConfig {
  Config_Pipeline : PipelineConfig;
  Config_Source : SourceConfig float64;
  Config_Sink : SinkConfig float64
}.

Arguments mkConfig {float64} _ _ _.
Arguments Config_Pipeline {float64} _.
Arguments Config_Source {float64} _.
Arguments Config_Sink {float64} _.

(** [LoadFromFile]: [ReadFile] is [os.ReadFile], [Unmarshal] is
    [json.Unmarshal] into a zero [Config]; either gives an error message or
    its result. *)
Definition LoadFromFile {float64} (ReadFile : string → string + list Byte.byte)
    (Unmarshal : list Byte.byte → string + Config float64) (path : string) :
    string + Config float64 :=
  match ReadFile path with
  | inl err => inl ("failed to read config file: " ++ err)
  | inr data =>
      match Unmarshal data with
      | inl err => inl ("failed to parse config file: " ++ err)
      | inr config => inr config
      end
  end.

End config.

(** ** The MongoDB source: [pkg/source/mongodb.go] *)

Module source.

Import bson pipeline.

(** An [error] is represented by its message. *)
Abbreviation error := string.

(** [MongoDBSource]; [client] is the pointer field, [None] while it is nil.
    The driver's client type is a parameter. *)
Record MongoDBSource (Client : Type) : Type := mkMongoDBSource {
  uri : string;
  database : string;
  collection : string;
  client : option Client
}.

Arguments mkMongoDBSource {Client} _ _ _ _.
Arguments uri {Client} _.
Arguments database {Client} _.
Arguments collection {Client} _.
Arguments client {Client} _.

(** [NewMongoDBSource]: the client stays nil until [Connect]. *)
Definition NewMongoDBSource {Client} (uri database collection : string) : MongoDBSource Client :=
  mkMongoDBSource uri database collection None.

(** [Connect]: [dial] is the result of [mongo.Connect], [ping] that of
    [client.Ping]; the client is stored only when both succeed. *)
Definition Connect {Client} (dial : error + Client) (ping : Client → option error)
    (m : MongoDBSource Client) : MongoDBSource Client * option error :=
  match dial with
  | inl err => (m, Some ("failed to connect to MongoDB: " ++ err))
  | inr c =>
      match ping c with
      | Some err => (m, Some ("failed to ping MongoDB: " ++ err))
      | None => (mkMongoDBSource (uri m) (database m) (collection m) (Some c), None)
      end
  end.

(** [convertBSONToMap]: a fresh map filled by ranging over [doc]. *)
Definition convertBSONToMap (doc : M) : M :=
  map_fold (λ k v result, <[k := v]> result) ∅ doc.

(** The loop [for k, v := range fields { data[k] = v }]. *)
Definition assign_all (fields : M) (data : M) : M :=
  map_fold (λ k v d, <[k := v]> d) data fields.

(** [convertChangeEvent]; [now] is the value of [time.Now()]. *)
Definition convertChangeEvent {Client} (m : MongoDBSource Client) (now : Z)
    (changeDoc : M) : Event :=
  let event := mkEvent EmptyString EmptyString "mongodb" (database m) (collection m) None now in
  let event :=
    match changeDoc !! "_id" with
    | Some id => set_ID event (Sprintf_v id)
    | None => event
    end in
  let event :=
    match as_string (changeDoc !! "operationType") with
    | Some opType => set_Operation event opType
    | None => event
    end in
  let event :=
    match as_M (changeDoc !! "fullDocument") with
    | Some fullDoc => set_Data event (Some (convertBSONToMap fullDoc))
    | None => event
    end in
  match as_M (changeDoc !! "updateDescription") with
  | Some updateDesc =>
      match as_M (updateDesc !! "updatedFields") with
      | Some updatedFields =>
          let data := match Data event with Some d => d | None => ∅ end in
          set_Data event (Some (assign_all (convertBSONToMap updatedFields) data))
      | None => event
      end
  | None => event
  end.

(** [updateDescription.updatedFields], when both are documents. *)
Definition updatedFields_of (changeDoc : M) : option M :=
  match as_M (changeDoc !! "updateDescription") with
  | Some updateDesc => as_M (updateDesc !! "updatedFields")
  | None => None
  end.

(** What the change stream does during one [Read]: every successful
    [stream.Next] comes with a document or with a [Decode] failure; after the
    last one [Next] returns false, because the stream ended or the context
    was canceled, and [stream.Err()] is [stream_err]. *)
Record ChangeStream : Type := mkChangeStream {
  items : list (error + M);
  stream_err : option error
}.

(** The channel operations of the goroutine started by [Read], in program
    order.  [Crash] is the unrecovered panic of a nil [client]. *)
Inductive action : Type :=
  | SendEvent (e : Event)
  | SendError (err : error)
  | StreamClose
  | CloseErrors
  | CloseEvents
  | Crash.

(** The body of [for stream.Next(ctx) { ... }]; the [i]-th iteration reads the
    clock as [now i]. *)
Fixpoint Read_loop {Client} (m : MongoDBSource Client) (now : nat → Z) (i : nat)
    (its : list (error + M)) : list action :=
  match its with
  | [] => []
  | inl err :: rest =>
      SendError ("failed to decode change event: " ++ err) :: Read_loop m now (S i) rest
  | inr changeDoc :: rest =>
      SendEvent (convertChangeEvent m (now i) changeDoc) :: Read_loop m now (S i) rest
  end.

(** [Read]: [watch] is the result of [collection.Watch].  The deferred calls
    run last-in first-out: [stream.Close], [close(errors)], [close(events)];
    they also run when dereferencing a nil client panics. *)
Definition Read {Client} (m : MongoDBSource Client) (now : nat → Z)
    (watch : error + ChangeStream) : list action :=
  match client m with
  | None => [CloseErrors; CloseEvents; Crash]
  | Some _ =>
      match watch with
      | inl err =>
          [SendError ("failed to create change stream: " ++ err); CloseErrors; CloseEvents]
      | inr stream =>
          Read_loop m now 0 (items stream)
          ++ match stream_err stream with
             | Some err => [SendError ("change stream error: " ++ err)]
             | None => []
             end
          ++ [StreamClose; CloseErrors; CloseEvents]
      end
  end.

(** The sends on either channel. *)
Definition is_send (a : action) : bool :=
  match a with
  | SendEvent _ | SendError _ => true
  | _ => false
  end.

(** Both channels are unbuffered: a send completes only when a receiver takes
    the value.  [deliver budget prog] is what the goroutine gets done when its
    receivers take [budget] values in all; at the first send nobody takes, it
    blocks for good. *)
Fixpoint deliver (budget : nat) (prog : list action) : list action :=
  match prog with
  | [] => []
  | a :: rest =>
      if is_send a then
        match budget with
        | O => []
        | S b => a :: deliver b rest
        end
      else a :: deliver budget rest
  end.

(** How many values the program sends in all. *)
Definition sends (prog : list action) : nat := length (filter (λ a, is_send a = true) prog).

Definition is_close_events (a : action) : bool :=
  match a with CloseEvents => true | _ => false end.

Definition is_close_errors (a : action) : bool :=
  match a with CloseErrors => true | _ => false end.

(** Whether the goroutine got as far as closing the channel. *)
Definition events_closed (t : list action) : bool := existsb is_close_events t.
Definition errors_closed (t : list action) : bool := existsb is_close_errors t.

(** The events the goroutine offers on the events channel. *)
Definition sent_events (t : list action) : list Event :=
  omap (λ a, match a with SendEvent e => Some e | _ => None end) t.

(** The errors the goroutine offers on the errors channel. *)
Definition sent_errors (t : list action) : list error :=
  omap (λ a, match a with SendError err => Some err | _ => None end) t.

(** [Close]: [Disconnect] is the driver's method of that name on
    [mongo.Client]; it acts on the client the pointer refers to, and the
    pointer itself is left as it is. *)
Definition Close {Client} (Disconnect : Client → Client * option error)
    (m : MongoDBSource Client) : MongoDBSource Client * option error :=
  match client m with
  | Some c =>
      let '(c', err) := Disconnect c in
      (mkMongoDBSource (uri m) (database m) (collection m) (Some c'), err)
  | None => (m, None)
  end.

End source.

(** ** The field mapper *)

Module transform.

Import bson pipeline.

Abbreviation error := string.

(** Modelled from the spec: the package [pkg/transform] ([FieldMapperConfig],
    [NewFieldMapper], [NewPassThroughTransformer], named by [main.go]) is not
    among the sources.  What follows renders the spec's "Transform rule set",
    "Transform Stage (Field Mapper)" and "Configuration surface": a rule is
    [{source, destination?, format?}], the supported formats are the closed
    set lowercase/uppercase/trim, a missing destination keeps the source
    name.  The [drop?] flag of the data model has no effect described
    anywhere and is not part of the configuration surface; it is left out. *)
Record FieldMapping : Type := mkFieldMapping {
  mapping_source : string;
  mapping_destination : option string;
  mapping_format : option string
}.

(** Modelled from the spec: the settings of a [fieldmapper] transformer. *)
Record FieldMapperConfig : Type := mkFieldMapperConfig {
  mappings : list FieldMapping;
  include_all : bool
}.

(** Modelled from the spec: the closed set of supported formats. *)
Inductive Format : Type := Lowercase | Uppercase | Trim.

(** Modelled from the spec: the names of the supported formats; any other
    name is unsupported. *)
Definition parse_format (name : string) : option Format :=
  if decide (name = "lowercase") then Some Lowercase
  else if decide (name = "uppercase") then Some Uppercase
  else if decide (name = "trim") then Some Trim
  else None.

(** Modelled from the spec: a rule after validation, with its destination
    name settled and its format recognised. *)
Record rule : Type := mkRule {
  rule_source : string;
  rule_destination : string;
  rule_format : option Format
}.

(** Modelled from the spec: the mapper built from a valid rule set. *)
Record FieldMapper : Type := mkFieldMapper {
  rules : list rule;
  includeAll : bool
}.

(** Modelled from the spec: validation of one rule. *)
Definition compile_rule (fm : FieldMapping) : error + rule :=
  let dest := default (mapping_source fm) (mapping_destination fm) in
  match mapping_format fm with
  | None => inr (mkRule (mapping_source fm) dest None)
  | Some name =>
      match parse_format name with
      | Some f => inr (mkRule (mapping_source fm) dest (Some f))
      | None => inl ("unsupported format: " ++ name)
      end
  end.

(** Modelled from the spec: validation of the rules in their order; the first
    unsupported format is the error. *)
Fixpoint compile_rules (fms : list FieldMapping) : error + list rule :=
  match fms with
  | [] => inr []
  | fm :: rest =>
      match compile_rule fm with
      | inl err => inl err
      | inr r =>
          match compile_rules rest with
          | inl err => inl err
          | inr rs => inr (r :: rs)
          end
      end
  end.

(** Modelled from the spec: construction rejects an unsupported format and a
    duplicate destination name. *)
Definition NewFieldMapper (cfg : FieldMapperConfig) : error + FieldMapper :=
  match compile_rules (mappings cfg) with
  | inl err => inl err
  | inr rs =>
      if decide (NoDup (rule_destination <$> rs))
      then inr (mkFieldMapper rs (include_all cfg))
      else inl "duplicate destination field"
  end.

(** Modelled from the spec: the pass-through transformer is the mapper with no
    rules and [include_all] set. *)
Definition NewPassThroughTransformer : FieldMapper := mkFieldMapper [] true.

(** Modelled from the spec: the three formats, on the bytes of the string. *)
Definition lower_ascii (c : ascii) : ascii :=
  let n := nat_of_ascii c in
  if Nat.leb 65 n && Nat.leb n 90 then ascii_of_nat (n + 32) else c.

Definition upper_ascii (c : ascii) : ascii :=
  let n := nat_of_ascii c in
  if Nat.leb 97 n && Nat.leb n 122 then ascii_of_nat (n - 32) else c.

Fixpoint map_string (f : ascii → ascii) (s : string) : string :=
  match s with
  | EmptyString => EmptyString
  | String c rest => String (f c) (map_string f rest)
  end.

Fixpoint trim_left (s : string) : string :=
  match s with
  | EmptyString => EmptyString
  | String c rest => if Ascii.is_space c then trim_left rest else s
  end.

Definition trim (s : string) : string :=
  String.rev (trim_left (String.rev (trim_left s))).

(** Modelled from the spec: a format applies to strings; on a value of another
    type it is a per-event error. *)
Definition apply_format (f : Format) (v : value) : error + value :=
  match v with
  | VString s =>
      inr (VString match f with
                   | Lowercase => map_string lower_ascii s
                   | Uppercase => map_string upper_ascii s
                   | Trim => trim s
                   end)
  | _ => inl "format does not apply to the value"
  end.

(** Modelled from the spec: the value a mapped field ends up with, and the
    errors to surface; when the format cannot apply, the field is forwarded as
    it is. *)
Definition format_field (r : rule) (v : value) : value * list error :=
  match rule_format r with
  | None => (v, [])
  | Some f =>
      match apply_format f v with
      | inr v' => (v', [])
      | inl err => (v, [err])
      end
  end.

(** Modelled from the spec: the rule that maps a field, if any; it is the
    first one naming the field as its source. *)
Definition rule_for (fm : FieldMapper) (field : string) : option rule :=
  List.find (λ r, bool_decide (rule_source r = field)) (rules fm).

(** Modelled from the spec: what a mapped field becomes. *)
Definition map_field (fm : FieldMapper) (kv : string * value) : option (string * value) :=
  match rule_for fm kv.1 with
  | Some r => Some (rule_destination r, (format_field r kv.2).1)
  | None => None
  end.

(** Modelled from the spec: the fields some rule maps, under their
    destination names. *)
Definition mapped (fm : FieldMapper) (data : M) : M :=
  list_to_map (omap (map_field fm) (map_to_list data)).

(** Modelled from the spec: the fields no rule maps, under their own names. *)
Definition unmapped (fm : FieldMapper) (data : M) : M :=
  filter (λ kv, rule_for fm kv.1 = None) data.

(** Modelled from the spec: "for each input field present in data: if a rule
    maps it, the destination name replaces the source name and the declared
    format is applied; if no rule maps it: kept under its original name when
    include_all is true, dropped otherwise".  The spec does not say which
    field wins when a kept field bears the destination name of a mapped one;
    here the kept field does, as "include_all=true preserves all unmapped
    fields" asks. *)
Definition map_data (fm : FieldMapper) (data : M) : M :=
  (if includeAll fm then unmapped fm data else ∅) ∪ mapped fm data.

(** Modelled from the spec: the per-event errors of the formats that could
    not apply. *)
Definition field_errors (fm : FieldMapper) (data : M) : list error :=
  concat ((λ kv, match rule_for fm kv.1 with
                 | Some r => (format_field r kv.2).2
                 | None => []
                 end) <$> map_to_list data).

(** Modelled from the spec: [Apply(Event) -> (Event, drop bool, error)]; only
    [data] is mapped, the mapper drops no event. *)
Definition Apply (fm : FieldMapper) (e : Event) : Event * bool * list error :=
  (set_Data e (map_data fm <$> Data e),
   false,
   match Data e with Some d => field_errors fm d | None => [] end).

End transform.

(** ** The batching upsert sink *)

Module sink.

Import bson pipeline.

(** Modelled from the spec: [pkg/sink/postgresql.go] is not among the sources.
    The target table holds one row per entity id; a row is its columns.  The
    model is the spec's "Batching Upsert Sink" with a store that accepts every
    bulk write (no retry path). *)
Abbreviation row := (gmap string value).
Abbreviation table := (gmap string row).

(** Modelled from the spec: the operations of the upsert group. *)
Definition is_upsert (e : Event) : bool :=
  bool_decide (Operation e ∈ ["insert"; "update"; "replace"]).

(** Modelled from the spec: the operation of the delete group. *)
Definition is_delete (e : Event) : bool :=
  bool_decide (Operation e = "delete").

(** Modelled from the spec: the upsert group, in the order of the batch. *)
Definition upsert_group (batch : list Event) : list Event :=
  filter (λ e, is_upsert e = true) batch.

(** Modelled from the spec: the delete group, in the order of the batch. *)
Definition delete_group (batch : list Event) : list Event :=
  filter (λ e, is_delete e = true) batch.

(** Modelled from the spec: the columns an Event carries; a delete carries
    none. *)
Definition payload (e : Event) : row :=
  match Data e with Some d => d | None => ∅ end.

(** Modelled from the spec: "if a row with that id exists, its columns are
    overwritten with the fields present in data (fields absent from data are
    left untouched); if absent, a new row is inserted with data plus the
    id". *)
Definition upsert (t : table) (e : Event) : table :=
  match t !! ID e with
  | Some old => <[ID e := payload e ∪ old]> t
  | None => <[ID e := payload e]> t
  end.

(** Modelled from the spec: a delete is applied by id. *)
Definition delete_by_id (t : table) (e : Event) : table :=
  delete (ID e) t.

(** Modelled from the spec: on flush the upsert group is written first, then
    the delete group is applied by id. *)
Definition flush (t : table) (batch : list Event) : table :=
  foldl delete_by_id (foldl upsert t (upsert_group batch)) (delete_group batch).

(** Modelled from the spec: the sink is its target, its accumulation buffer
    and its size threshold. *)
Record PostgreSQLSink : Type := mkPostgreSQLSink {
  target : table;
  buffer : list Event;
  batchSize : nat
}.

(** Modelled from the spec: size threshold, default 100 events. *)
Definition NewPostgreSQLSink (t : table) : PostgreSQLSink :=
  mkPostgreSQLSink t [] 100.

(** Modelled from the spec: an event joins the buffer; reaching the threshold
    closes the batch and flushes it. *)
Definition accept (s : PostgreSQLSink) (e : Event) : PostgreSQLSink :=
  let buf := (buffer s ++ [e])%list in
  if decide (batchSize s ≤ length buf)%nat
  then mkPostgreSQLSink (flush (target s) buf) [] (batchSize s)
  else mkPostgreSQLSink (target s) buf (batchSize s).

(** Modelled from the spec: flush-on-drain, a partially filled buffer goes out
    as one last batch. *)
Definition drain (s : PostgreSQLSink) : PostgreSQLSink :=
  match buffer s with
  | [] => s
  | buf => mkPostgreSQLSink (flush (target s) buf) [] (batchSize s)
  end.

(** Modelled from the spec: the sink consumes the stream of events and drains
    when it closes. *)
Definition Write (s : PostgreSQLSink) (events : list Event) : PostgreSQLSink :=
  drain (foldl accept s events).

End sink.

(** ** The pipeline orchestrator *)

Module orchestrator.

Import pipeline.

Abbreviation error := string.

(** Modelled from the spec: [pkg/pipeline] ([pipeline.go], [types.go]) is not
    among the sources.  The adapter contracts are those of the spec's
    "External interfaces"; an adapter is a state with its operations, and the
    two channels of [Read] are the sequence of what they deliver, followed by
    the unrecoverable condition that ended the stream, if any. *)
Class Source (S : Type) : Type := {
  source_Connect : S → S * option error;
  source_Read : S → S * list (error + Event) * option error;
  source_Close : S → S * option error
}.

(** Modelled from the spec: the sink adapter contract. *)
Class Sink (K : Type) : Type := {
  sink_Connect : K → K * option error;
  sink_Write : K → list Event → K * list error;
  sink_Close : K → K * option error
}.

(** Modelled from the spec: the transform stage, [Event -> Event] or nothing
    to drop the event, with the errors to surface. *)
Class Transformer (T : Type) : Type := {
  Transform : T → Event → option Event * list error
}.

(** Modelled from the spec: the calls [Run] makes on its adapters. *)
Inductive call : Type :=
  | CallSourceConnect
  | CallSinkConnect
  | CallSourceRead
  | CallSinkWrite (events : list Event)
  | CallSinkClose
  | CallSourceClose.

(** Modelled from the spec: the terminal states of a run. *)
Inductive terminal : Type :=
  | StoppedCleanly
  | FatalConnectError (stage : string) (cause : error)
  | FatalRuntimeError (cause : error).

(** The state of a run: the two adapters, the calls made so far and the
    errors logged so far. *)
Record world (S K : Type) : Type := mkWorld {
  src : S;
  snk : K;
  calls : list call;
  logged : list error
}.

Arguments mkWorld {S K} _ _ _ _.
Arguments src {S K} _.
Arguments snk {S K} _.
Arguments calls {S K} _.
Arguments logged {S K} _.

(** A step of the run: it changes the world and either goes on with a value
    or ends the run in a terminal state. *)
Definition run (S K A : Type) : Type := world S K → world S K * (terminal + A).

(** The run goes on with [a]. *)
Definition ret {S K A} (a : A) : run S K A := λ w, (w, inr a).

(** The run ends in the terminal state [t]. *)
Definition abort {S K A} (t : terminal) : run S K A := λ w, (w, inl t).

(** Sequencing: a terminal state ends the run at once. *)
Definition bind {S K A B} (c : run S K A) (k : A → run S K B) : run S K B :=
  λ w, match c w with
       | (w', inl t) => (w', inl t)
       | (w', inr a) => k a w'
       end.

Notation "'let*' x ':=' c 'in' k" := (bind c (λ x, k))
  (at level 10, x name, c at level 100, k at level 200).

Section Run.

Context {S K T : Type} `{!Source S, !Sink K, !Transformer T}.

(** A call on an adapter goes into the log of calls. *)
Definition record (c : call) : run S K unit :=
  λ w, (mkWorld (src w) (snk w) (calls w ++ [c])%list (logged w), inr tt).

(** Non-fatal errors are logged and do not stop the run. *)
Definition log_errors (errs : list error) : run S K unit :=
  λ w, (mkWorld (src w) (snk w) (calls w) (logged w ++ errs)%list, inr tt).

(** Modelled from the spec: a source that fails to connect is fatal. *)
Definition connect_source : run S K unit :=
  let* _ := record CallSourceConnect in
  λ w, let '(s, r) := source_Connect (src w) in
       (mkWorld s (snk w) (calls w) (logged w),
        match r with
        | Some err => inl (FatalConnectError "source" err)
        | None => inr tt
        end).

(** Modelled from the spec: a sink that fails to connect is fatal. *)
Definition connect_sink : run S K unit :=
  let* _ := record CallSinkConnect in
  λ w, let '(k, r) := sink_Connect (snk w) in
       (mkWorld (src w) k (calls w) (logged w),
        match r with
        | Some err => inl (FatalConnectError "sink" err)
        | None => inr tt
        end).

(** Modelled from the spec: the source is asked to stream. *)
Definition read_source : run S K (list (error + Event) * option error) :=
  let* _ := record CallSourceRead in
  λ w, let '(s, delivered, fatal) := source_Read (src w) in
       (mkWorld s (snk w) (calls w) (logged w), inr (delivered, fatal)).

(** Modelled from the spec: the pump; non-fatal errors are logged, events go
    through the transform stage, the surviving ones are forwarded in order. *)
Fixpoint pump (tr : T) (delivered : list (error + Event)) : list Event * list error :=
  match delivered with
  | [] => ([], [])
  | inl err :: rest =>
      let '(out, errs) := pump tr rest in (out, err :: errs)
  | inr e :: rest =>
      let '(e', terrs) := Transform tr e in
      let '(out, errs) := pump tr rest in
      (match e' with Some e1 => e1 :: out | None => out end, (terrs ++ errs)%list)
  end.

(** Modelled from the spec: the surviving events go to the sink's intake; the
    errors of the sink are logged. *)
Definition write_sink (events : list Event) : run S K unit :=
  let* _ := record (CallSinkWrite events) in
  λ w, let '(k, errs) := sink_Write (snk w) events in
       (mkWorld (src w) k (calls w) (logged w ++ errs)%list, inr tt).

(** Modelled from the spec: at the end the sink is closed, then the source. *)
Definition close_adapters : run S K unit :=
  let* _ := record CallSinkClose in
  let* _ := (λ w, (mkWorld (src w) (sink_Close (snk w)).1 (calls w) (logged w), inr tt)) in
  let* _ := record CallSourceClose in
  λ w, (mkWorld (source_Close (src w)).1 (snk w) (calls w) (logged w), inr tt).

(** Modelled from the spec: "On entry, calls Connect on the Source adapter
    and the Sink adapter; either failing is fatal and aborts the run"; then
    the events are pumped until the stream closes, the adapters are closed,
    and the run ends [stopped-cleanly] or, when the source signalled an
    unrecoverable condition, [fatal-runtime-error]. *)
Definition Run_steps (tr : T) : run S K unit :=
  let* _ := connect_source in
  let* _ := connect_sink in
  let* stream := read_source in
  let '(delivered, fatal) := stream in
  let '(forwarded, errs) := pump tr delivered in
  let* _ := log_errors errs in
  let* _ := write_sink forwarded in
  let* _ := close_adapters in
  match fatal with
  | Some err => abort (FatalRuntimeError err)
  | None => ret tt
  end.

(** Modelled from the spec: [Run(ctx) -> error], from adapters on which
    nothing has been called yet. *)
Definition Run (s : S) (k : K) (tr : T) : world S K * terminal :=
  match Run_steps tr (mkWorld s k [] []) with
  | (w, inl t) => (w, t)
  | (w, inr _) => (w, StoppedCleanly)
  end.

(** Whether the source was asked to stream. *)
Definition asked_to_stream (w : world S K) : bool :=
  existsb (λ c, match c with CallSourceRead => true | _ => false end) (calls w).

(** Whether any event left the source or reached the sink. *)
Definition events_flowed (w : world S K) : bool :=
  existsb (λ c, match c with CallSourceRead | CallSinkWrite _ => true | _ => false end) (calls w).

End Run.

End orchestrator.

(** ** The driver's client, as far as [Close] depends on it *)

Module mongo.

(** [mongo.Client]: connected once [Connect] returned it, disconnected after
    [Disconnect]. *)
Inductive Client : Type := Connected | Disconnected.

Definition ErrClientDisconnected : string := "client is disconnected".

(** [Disconnect] succeeds on a connected client and reports
    [ErrClientDisconnected] on one that is disconnected already. *)
Definition Disconnect (c : Client) : Client * option string :=
  match c with
  | Connected => (Disconnected, None)
  | Disconnected => (Disconnected, Some ErrClientDisconnected)
  end.

End mongo.

(** ** The wiring of [cmd/data-pipe/main.go] *)

Module main.

Import pipeline orchestrator.

(** What the MongoDB deployment does during one run. *)
Record deployment : Type := mkDeployment {
  dial : source.error + mongo.Client;
  ping : option source.error;
  watch : source.error + source.ChangeStream;
  now : nat → Z
}.

(** What the two channels of [Read] deliver, in order. *)
Definition delivered (t : list source.action) : list (source.error + Event) :=
  omap (λ a, match a with
             | source.SendEvent e => Some (inr e)
             | source.SendError err => Some (inl err)
             | _ => None
             end) t.

(** [source.NewMongoDBSource] as the pipeline's [Source]. *)
#[global] Instance MongoDBSource_Source :
    Source (source.MongoDBSource mongo.Client * deployment) := {
  source_Connect '(m, d) :=
    let '(m', r) := source.Connect (dial d) (λ _, ping d) m in ((m', d), r);
  source_Read '(m, d) := ((m, d), delivered (source.Read m (now d) (watch d)), None);
  source_Close '(m, d) :=
    let '(m', r) := source.Close mongo.Disconnect m in ((m', d), r)
}.

(** [sink.NewPostgreSQLSink] as the pipeline's [Sink], over the model of the
    sink; the second component is the error of connecting to the database, if
    it cannot be reached. *)
#[global] Instance PostgreSQLSink_Sink : Sink (sink.PostgreSQLSink * option string) := {
  sink_Connect '(k, unreachable) := ((k, unreachable), unreachable);
  sink_Write '(k, unreachable) events := ((sink.Write k events, unreachable), []);
  sink_Close '(k, unreachable) := ((sink.drain k, unreachable), None)
}.

(** [transform.NewFieldMapper] and [transform.NewPassThroughTransformer] as
    the pipeline's [Transformer]. *)
#[global] Instance FieldMapper_Transformer : Transformer transform.FieldMapper := {
  Transform fm e :=
    let '(e', drop, errs) := transform.Apply fm e in
    (if drop : bool then None else Some e', errs)
}.

(** How the process ends: [logger.Fatalf] logs the message and exits with
    status 1; a return from [main] comes after printing [Goodbye!]. *)
Inductive exit : Type :=
  | Fatal (msg : string)
  | Goodbye.

(** The arguments of [sink.NewPostgreSQLSink]. *)
Record PostgreSQLSinkArgs : Type := mkPostgreSQLSinkArgs {
  connStr : string;
  table : string
}.

(** [main], in the variant that always wires the pass-through transformer
    (the one the [Config] of [config.go] supports).  [flag_config] is the
    [-config] flag when given; [Run] stands for building the pipeline with
    [pipeline.New] from the name, the source and the sink and running it
    until it returns. *)
Definition main {float64} (ReadFile : string → string + list Byte.byte)
    (Unmarshal : list Byte.byte → string + config.Config float64)
    (Run : string → source.MongoDBSource mongo.Client → PostgreSQLSinkArgs → option string)
    (flag_config : option string) : exit :=
  let configPath := match flag_config with Some p => p | None => "config.json" end in
  match config.LoadFromFile ReadFile Unmarshal configPath with
  | inl err => Fatal ("Failed to load configuration: " ++ err)
  | inr cfg =>
      if decide (config.source_Type (config.Config_Source cfg) = "mongodb") then
        let uri := config.SourceConfig_GetString (config.Config_Source cfg) "uri" in
        let database := config.SourceConfig_GetString (config.Config_Source cfg) "database" in
        let collection := config.SourceConfig_GetString (config.Config_Source cfg) "collection" in
        let src := source.NewMongoDBSource uri database collection in
        if decide (config.sink_Type (config.Config_Sink cfg) = "postgresql") then
          let connStr := config.SinkConfig_GetString (config.Config_Sink cfg) "connection_string" in
          let table := config.SinkConfig_GetString (config.Config_Sink cfg) "table" in
          let snk := mkPostgreSQLSinkArgs connStr table in
          match Run (config.Name (config.Config_Pipeline cfg)) src snk with
          | Some err => Fatal ("Pipeline error: " ++ err)
          | None => Goodbye
          end
        else Fatal ("Unsupported sink type: " ++ config.sink_Type (config.Config_Sink cfg))
      else Fatal ("Unsupported source type: " ++ config.source_Type (config.Config_Source cfg))
  end.

End main.

(** ** Sample inputs *)

Module samples.

Import bson pipeline source.

(** A source on [mydb.users], before and after [Connect]. *)
Definition fresh_source : MongoDBSource mongo.Client :=
  NewMongoDBSource "mongodb://localhost:27017" "mydb" "users".

Definition connected_source : MongoDBSource mongo.Client :=
  mkMongoDBSource "mongodb://localhost:27017" "mydb" "users" (Some mongo.Connected).

(** The [_id] of a change-stream event is its resume token. *)
Definition resume_token : value := VDoc {[ "_data" := VString "8263A1F0" ]}.

Definition namespace : value :=
  VDoc {[ "db" := VString "mydb"; "coll" := VString "users" ]}.

(** The event MongoDB sends for [db.users.insertOne({_id: 42, name: "Ann"})]. *)
Definition insert_change : M :=
  {[ "_id" := resume_token;
     "operationType" := VString "insert";
     "ns" := namespace;
     "documentKey" := VDoc {[ "_id" := VInt 42 ]};
     "fullDocument" := VDoc {[ "_id" := VInt 42; "name" := VString "Ann" ]} ]}.

(** The event for [db.users.drop()]. *)
Definition drop_change : M :=
  {[ "_id" := resume_token;
     "operationType" := VString "drop";
     "ns" := namespace ]}.

(** An update that only removes a field, of a document that was deleted
    before the lookup of the full document: [fullDocument] is null and
    [updatedFields] is empty. *)
Definition unset_change : M :=
  {[ "_id" := resume_token;
     "operationType" := VString "update";
     "ns" := namespace;
     "documentKey" := VDoc {[ "_id" := VInt 42 ]};
     "fullDocument" := VNil;
     "updateDescription" :=
       VDoc {[ "updatedFields" := VDoc ∅;
               "removedFields" := VArray [VString "nickname"] ]} ]}.

Definition clock : nat → Z := λ i, (1700000000 + Z.of_nat i)%Z.

(** A deployment that answers, with one insertion in its change stream. *)
Definition healthy : main.deployment :=
  main.mkDeployment (inr mongo.Connected) None
    (inr (mkChangeStream [inr insert_change] None)) clock.

Definition empty_sink : sink.PostgreSQLSink := sink.NewPostgreSQLSink ∅.

(** The three events of the spec's scenario for id ["42"]. *)
Definition event_42 (op : string) (data : option M) : Event :=
  mkEvent "42" op "mongodb" "mydb" "users" data (clock 0).

Definition batch_42 : list Event :=
  [ event_42 "insert" (Some {[ "x" := VInt 1 ]});
    event_42 "update" (Some {[ "y" := VInt 2 ]});
    event_42 "delete" None ].

(** A target that holds rows for the ids ["42"] and ["7"]. *)
Definition row_42 : sink.table :=
  {[ "42" := {[ "z" := VInt 9 ]}; "7" := {[ "z" := VInt 7 ]} ]}.

(** The rule set of the spec's renaming scenario. *)
Definition rename_firstName : transform.FieldMapperConfig :=
  transform.mkFieldMapperConfig
    [transform.mkFieldMapping "firstName" (Some "first_name") None] false.

Definition ann : M := {[ "firstName" := VString "Ann"; "age" := VInt 30 ]}.

(** An update of [age], with the full document looked up afterwards. *)
Definition update_change : M :=
  {[ "_id" := resume_token;
     "operationType" := VString "update";
     "ns" := namespace;
     "documentKey" := VDoc {[ "_id" := VInt 42 ]};
     "fullDocument" :=
       VDoc {[ "_id" := VInt 42; "name" := VString "Ann"; "age" := VInt 32 ]};
     "updateDescription" :=
       VDoc {[ "updatedFields" := VDoc {[ "age" := VInt 31 ]};
               "removedFields" := VArray [] ]} ]}.

(** A stream with a document that does not decode between two that do, ended
    by the cancellation of the context. *)
Definition mixed_stream : ChangeStream :=
  mkChangeStream [inr insert_change; inl "invalid document"; inr update_change]
    (Some "context canceled").

(** The configuration of the README, without a [uri]. *)
Definition config_without_uri : config.Config Z :=
  config.mkConfig (config.mkPipelineConfig "mongodb-to-postgresql")
    (config.mkSourceConfig "mongodb"
       {[ "database" := config.JString "mydb";
          "collection" := config.JString "users";
          "port" := config.JNumber 27017%Z ]})
    (config.mkSinkConfig "postgresql"
       {[ "connection_string" := config.JString "host=localhost dbname=mydb";
          "table" := config.JString "users" ]}).

End samples.

(** * Properties *)

(** ** The MongoDB source *)

Section MongoDBSource.

Import bson pipeline source.

Context {Client : Type}.
Implicit Types (m : MongoDBSource Client) (doc fields data : M).

Lemma convertBSONToMap_copy doc : convertBSONToMap doc = doc.
Proof.
  unfold convertBSONToMap.
  apply (map_fold_weak_ind (λ r d, r = d)); [done|].
  by intros k v d r _ ->.
Qed.

Lemma assign_all_union fields data : assign_all fields data = fields ∪ data.
Proof.
  unfold assign_all.
  apply (map_fold_weak_ind (λ r d, r = d ∪ data)).
  - by rewrite (left_id_L ∅ (∪)).
  - intros k v d r _ ->. by rewrite insert_union_l.
Qed.

Lemma union_nonempty fields data : fields ∪ data ≠ ∅ ↔ fields ≠ ∅ ∨ data ≠ ∅.
Proof.
  split.
  - intros Hne. destruct (decide (fields = ∅)) as [->|Hf]; [|by left].
    right. by rewrite (left_id_L ∅ (∪)) in Hne.
  - intros [Hf|Hd] Hempty.
    + by apply map_positive_l in Hempty.
    + pose proof (map_positive_l _ _ Hempty) as ->.
      by rewrite (left_id_L ∅ (∪)) in Hempty.
Qed.

Lemma convertChangeEvent_ID m now doc :
  ID (convertChangeEvent m now doc) =
    match doc !! "_id" with Some id => Sprintf_v id | None => EmptyString end.
Proof.
  unfold convertChangeEvent.
  destruct (doc !! "_id"), (as_string (doc !! "operationType")),
    (as_M (doc !! "fullDocument")), (as_M (doc !! "updateDescription")) as [ud|];
    try destruct (as_M (ud !! "updatedFields")); reflexivity.
Qed.

Lemma convertChangeEvent_Operation m now doc :
  Operation (convertChangeEvent m now doc) =
    match as_string (doc !! "operationType") with Some op => op | None => EmptyString end.
Proof.
  unfold convertChangeEvent.
  destruct (doc !! "_id"), (as_string (doc !! "operationType")),
    (as_M (doc !! "fullDocument")), (as_M (doc !! "updateDescription")) as [ud|];
    try destruct (as_M (ud !! "updatedFields")); reflexivity.
Qed.

Lemma convertChangeEvent_Data m now doc :
  Data (convertChangeEvent m now doc) =
    match updatedFields_of doc with
    | Some updated =>
        Some (updated ∪ match as_M (doc !! "fullDocument") with Some full => full | None => ∅ end)
    | None => as_M (doc !! "fullDocument")
    end.
Proof.
  unfold convertChangeEvent, updatedFields_of.
  destruct (doc !! "_id"), (as_string (doc !! "operationType")),
    (as_M (doc !! "fullDocument")), (as_M (doc !! "updateDescription")) as [ud|];
    try destruct (as_M (ud !! "updatedFields")); simpl;
    rewrite ?assign_all_union, ?convertBSONToMap_copy; reflexivity.
Qed.

End MongoDBSource.

Section MongoDBSourceClaims.

Import bson pipeline source samples.

(** C1.  On the event MongoDB sends for the insertion of the document
    [{_id: 42, name: "Ann"}], the Event's id is the printed resume token of
    the change event, not the printed primary key [42] of the inserted
    document, which the Event carries in its data.  In general the id is the
    printed top-level [_id] of the change document, and empty without one. *)
Theorem convertChangeEvent_ID_is_change_id :
  (∀ (m : MongoDBSource mongo.Client) now doc,
      ID (convertChangeEvent m now doc) =
        match doc !! "_id" with Some id => Sprintf_v id | None => EmptyString end) ∧
  let e := convertChangeEvent connected_source (clock 0) insert_change in
  ID e = "map[_data:8263A1F0]" ∧
  Data e = Some ({[ "_id" := VInt 42; "name" := VString "Ann" ]} : M) ∧
  Sprintf_v (VInt 42) = "42" ∧
  ID e ≠ Sprintf_v (VInt 42).
Proof.
  split; [intros; apply convertChangeEvent_ID|].
  cbv zeta. rewrite convertChangeEvent_ID, convertChangeEvent_Data.
  repeat split; try (vm_compute; reflexivity).
  vm_compute. discriminate.
Qed.

End MongoDBSourceClaims.

Section Read.

Import bson pipeline source samples.

Context {Client : Type}.
Implicit Types (m : MongoDBSource Client) (prog t body tail pre post : list action).

Local Open Scope nat_scope.
Local Open Scope list_scope.

Lemma Read_loop_forwards m now i its j doc :
  its !! j = Some (inr doc) →
  SendEvent (convertChangeEvent m (now (i + j)) doc) ∈ Read_loop m now i its.
Proof.
  revert i j. induction its as [|it its IH]; intros i j Hj; [done|].
  destruct j as [|j]; simpl in Hj.
  - injection Hj as ->. rewrite Nat.add_0_r. simpl. left.
  - replace (i + S j) with (S i + j) by lia.
    destruct it; simpl; right; exact (IH (S i) j Hj).
Qed.

Lemma Read_loop_no_close m now i its :
  Forall (λ a, is_close_errors a = false ∧ is_close_events a = false)
    (Read_loop m now i its).
Proof.
  revert i. induction its as [|[err|doc] its IH]; intros i; simpl;
    [constructor| constructor; [done|apply IH]..].
Qed.

(** The goroutine's program is a part without any [close], followed by the two
    [close] calls and nothing that sends. *)
Lemma Read_shape m now watch :
  ∃ body tail,
    Read m now watch = body ++ CloseErrors :: CloseEvents :: tail ∧
    Forall (λ a, is_close_errors a = false ∧ is_close_events a = false) body ∧
    Forall (λ a, is_send a = false ∧ is_close_errors a = false ∧ is_close_events a = false) tail.
Proof.
  unfold Read. destruct (client m) as [c|].
  - destruct watch as [err|stream].
    + eexists [_], []. split; [reflexivity|]. split; repeat constructor.
    + exists (Read_loop m now 0 (items stream)
              ++ match stream_err stream with
                 | Some err => [SendError ("change stream error: " ++ err)%string]
                 | None => []
                 end ++ [StreamClose]), [].
      split; [by rewrite <- !(assoc_L (++))|].
      split; [|constructor].
      apply Forall_app. split; [apply Read_loop_no_close|].
      destruct (stream_err stream); repeat constructor.
  - exists [], [Crash]. split; [reflexivity|]. split; repeat constructor.
Qed.

Lemma deliver_all budget prog : sends prog ≤ budget → deliver budget prog = prog.
Proof.
  revert budget. induction prog as [|a prog IH]; intros budget Hb; [done|].
  unfold sends in Hb. rewrite filter_cons in Hb. simpl.
  destruct (is_send a) eqn:Ha.
  - rewrite decide_True in Hb by done. simpl in Hb.
    destruct budget as [|b]; [lia|]. f_equal. apply IH. unfold sends. lia.
  - rewrite decide_False in Hb by (by intros ?). f_equal. by apply IH.
Qed.

Lemma deliver_quiet budget prog :
  Forall (λ a, is_send a = false ∧ is_close_errors a = false ∧ is_close_events a = false) prog →
  deliver budget prog = prog.
Proof.
  induction 1 as [|a prog (Ha & _) _ IH]; [done|]. simpl. by rewrite Ha, IH.
Qed.

(** What the goroutine gets done is again a part without any [close],
    followed by a part without any send; the second part is empty or starts
    with the two [close] calls. *)
Lemma deliver_shape budget body tail :
  Forall (λ a, is_close_errors a = false ∧ is_close_events a = false) body →
  Forall (λ a, is_send a = false ∧ is_close_errors a = false ∧ is_close_events a = false) tail →
  ∃ done_body,
    Forall (λ a, is_close_errors a = false ∧ is_close_events a = false) done_body ∧
    (deliver budget (body ++ CloseErrors :: CloseEvents :: tail) = done_body ∨
     deliver budget (body ++ CloseErrors :: CloseEvents :: tail)
       = done_body ++ CloseErrors :: CloseEvents :: tail).
Proof.
  intros Hbody Htail. revert budget.
  induction Hbody as [|a body Ha _ IH]; intros budget.
  - exists []. split; [constructor|]. right. simpl. by rewrite deliver_quiet.
  - simpl. destruct (is_send a) eqn:Hs.
    + destruct budget as [|b].
      * exists []. split; [constructor|]. by left.
      * destruct (IH b) as (d & Hd & [->| ->]);
          exists (a :: d); (split; [by constructor|]); [by left|by right].
    + destruct (IH budget) as (d & Hd & [->| ->]);
        exists (a :: d); (split; [by constructor|]); [by left|by right].
Qed.

Lemma existsb_no_close_errors t :
  Forall (λ a, is_close_errors a = false ∧ is_close_events a = false) t →
  existsb is_close_errors t = false ∧ existsb is_close_events t = false.
Proof.
  induction 1 as [|a t (H1 & H2) _ (IH1 & IH2)]; [done|].
  simpl. by rewrite H1, H2, IH1, IH2.
Qed.

Lemma quiet_after_close body tail pre a post :
  Forall (λ a, is_close_errors a = false ∧ is_close_events a = false) body →
  Forall (λ a, is_send a = false) tail →
  body ++ tail = pre ++ a :: post →
  is_close_errors a = true ∨ is_close_events a = true →
  Forall (λ b, is_send b = false) post.
Proof.
  intros Hbody Htail. revert pre.
  induction Hbody as [|b body (Hb1 & Hb2) _ IH]; intros pre Heq Ha.
  - simpl in Heq. subst tail. apply Forall_app in Htail as [_ Htail].
    by apply Forall_cons in Htail as [_ ?].
  - destruct pre as [|p pre]; simpl in Heq; injection Heq as -> Heq.
    + destruct Ha; congruence.
    + by apply (IH pre).
Qed.

End Read.

Section ReadClaims.

Import bson pipeline source samples.

Local Open Scope nat_scope.
Local Open Scope list_scope.

(** C2 as stated fails: the change event of a dropped collection is forwarded
    with the operation tag [drop]. *)
Lemma unrecognized_operation_is_forwarded :
  ¬ (∀ (m : MongoDBSource mongo.Client) (now : nat → Z) (watch : error + ChangeStream)
       (e : Event),
       SendEvent e ∈ Read m now watch →
       Operation e ∈ ["insert"; "update"; "replace"; "delete"]%string).
Proof.
  intros H.
  specialize (H connected_source clock (inr (mkChangeStream [inr drop_change] None))
                (convertChangeEvent connected_source (clock 0) drop_change)).
  rewrite convertChangeEvent_Operation in H.
  assert (Hin : SendEvent (convertChangeEvent connected_source (clock 0) drop_change)
                ∈ Read connected_source clock (inr (mkChangeStream [inr drop_change] None)))
    by (simpl; left).
  apply H in Hin.
  replace (match as_string (drop_change !! "operationType"%string) with
           | Some op => op
           | None => EmptyString
           end) with "drop"%string in Hin by (vm_compute; reflexivity).
  repeat (apply elem_of_cons in Hin as [Hin|Hin]; [discriminate|]).
  by apply elem_of_nil in Hin.
Qed.

(** C2, amended.  Conversion has no error result: every document the stream
    decodes is converted and offered on the events channel, and the Event's
    operation is the document's [operationType] when that is a string, the
    empty string otherwise. *)
Theorem Read_forwards_operationType {Client} (m : MongoDBSource Client) (now : nat → Z)
    (stream : ChangeStream) (j : nat) (doc : M) :
  is_Some (client m) →
  items stream !! j = Some (inr doc) →
  SendEvent (convertChangeEvent m (now j) doc) ∈ Read m now (inr stream) ∧
  Operation (convertChangeEvent m (now j) doc) =
    match as_string (doc !! "operationType") with Some op => op | None => EmptyString end.
Proof.
  intros [c Hc] Hj. split; [|apply convertChangeEvent_Operation].
  unfold Read. rewrite Hc. apply elem_of_app. left.
  exact (Read_loop_forwards m now 0 (items stream) j doc Hj).
Qed.

Lemma Read_forwards_operationType_witness :
  SendEvent (convertChangeEvent connected_source (clock 1) drop_change)
    ∈ Read connected_source clock
        (inr (mkChangeStream [inr insert_change; inr drop_change] None)) ∧
  Operation (convertChangeEvent connected_source (clock 1) drop_change) = "drop"%string.
Proof.
  apply (Read_forwards_operationType connected_source clock
           (mkChangeStream [inr insert_change; inr drop_change] None) 1 drop_change).
  - eexists. reflexivity.
  - reflexivity.
Defined.

(** C9 as stated fails: an update that only removed a field, of a document
    gone before the lookup, is an [update] Event with an empty data map. *)
Lemma update_event_with_empty_data :
  ¬ (∀ (m : MongoDBSource mongo.Client) (now : nat → Z) (watch : error + ChangeStream)
       (e : Event),
       SendEvent e ∈ Read m now watch →
       Operation e ≠ "delete"%string →
       data_len e ≠ 0).
Proof.
  intros H.
  apply (H connected_source clock (inr (mkChangeStream [inr unset_change] None))
           (convertChangeEvent connected_source (clock 0) unset_change)).
  - simpl. left.
  - rewrite convertChangeEvent_Operation. vm_compute. discriminate.
  - unfold data_len. rewrite convertChangeEvent_Data. vm_compute. reflexivity.
Qed.

(** C9, amended.  The data of a converted Event is non-empty exactly when the
    change document carries a non-empty [fullDocument] or a non-empty
    [updateDescription.updatedFields], whatever the operation. *)
Theorem convertChangeEvent_data_nonempty {Client} (m : MongoDBSource Client) (now : Z)
    (doc : M) :
  data_len (convertChangeEvent m now doc) ≠ 0 ↔
  (∃ full, as_M (doc !! "fullDocument"%string) = Some full ∧ full ≠ ∅) ∨
  (∃ updated, updatedFields_of doc = Some updated ∧ updated ≠ ∅).
Proof.
  unfold data_len. rewrite convertChangeEvent_Data.
  destruct (updatedFields_of doc) as [updated|],
    (as_M (doc !! "fullDocument"%string)) as [full|];
    rewrite ?map_size_non_empty_iff, ?union_nonempty.
  - split.
    + intros [Hu|Hf]; [right; by exists updated|left; by exists full].
    + intros [(f & [= <-] & Hf)|(u & [= <-] & Hu)]; [by right|by left].
  - split.
    + intros [Hu|Hf]; [right; by exists updated|done].
    + intros [(f & [=] & _)|(u & [= <-] & Hu)]. by left.
  - split.
    + intros Hf. left. by exists full.
    + by intros [(f & [= <-] & Hf)|(u & [=] & _)].
  - split; [done|].
    by intros [(f & [=] & _)|(u & [=] & _)].
Qed.

End ReadClaims.

Section CloseClaims.

Import bson pipeline source samples.

(** C8 as stated fails: after a first [Close] that succeeded on a connected
    source, the second [Close] disconnects the same client again and returns
    the driver's [ErrClientDisconnected]. *)
Lemma second_Close_fails :
  ¬ (∀ m : MongoDBSource mongo.Client,
       (Close mongo.Disconnect m).2 = None →
       Close mongo.Disconnect (Close mongo.Disconnect m).1
         = ((Close mongo.Disconnect m).1, (Close mongo.Disconnect m).2)).
Proof.
  intros H. specialize (H connected_source eq_refl). discriminate H.
Qed.

(** C8, amended.  [Close] on a source that never connected returns nil and
    changes nothing, so a second call does the same.  On a connected source
    [Close] keeps the client: each call hands the retained client to the
    driver's [Disconnect] and returns its result, so the second call returns
    what [Disconnect] returns on the client the first call left behind. *)
Theorem Close_delegates_to_Disconnect {Client} (Disconnect : Client → Client * option error)
    (m : MongoDBSource Client) :
  (client m = None →
     Close Disconnect m = (m, None) ∧
     Close Disconnect (Close Disconnect m).1 = Close Disconnect m) ∧
  (∀ c, client m = Some c →
     let m1 := (Close Disconnect m).1 in
     client m1 = Some (Disconnect c).1 ∧
     (Close Disconnect m).2 = (Disconnect c).2 ∧
     client (Close Disconnect m1).1 = Some (Disconnect (Disconnect c).1).1 ∧
     (Close Disconnect m1).2 = (Disconnect (Disconnect c).1).2).
Proof.
  split.
  - intros Hc. unfold Close. rewrite Hc. simpl. by rewrite Hc.
  - intros c Hc. cbv zeta. unfold Close. rewrite Hc.
    destruct (Disconnect c) as [c1 r1] eqn:H1. simpl.
    destruct (Disconnect c1) as [c2 r2] eqn:H2. by simpl.
Qed.

Lemma Close_delegates_to_Disconnect_witness :
  (Close mongo.Disconnect fresh_source = (fresh_source, None) ∧
   Close mongo.Disconnect (Close mongo.Disconnect fresh_source).1
     = Close mongo.Disconnect fresh_source) ∧
  (Close mongo.Disconnect connected_source).2 = None ∧
  (Close mongo.Disconnect (Close mongo.Disconnect connected_source).1).2
    = Some mongo.ErrClientDisconnected.
Proof.
  split.
  - apply (Close_delegates_to_Disconnect mongo.Disconnect fresh_source). reflexivity.
  - destruct (Close_delegates_to_Disconnect mongo.Disconnect connected_source)
      as [_ H].
    destruct (H mongo.Connected eq_refl) as (_ & H1 & _ & H2).
    split; [exact H1|exact H2].
Defined.

End CloseClaims.

(** ** Configuration *)

Section GetString.

Import config.

Context {float64 : Type}.

(** C10.  [GetString] of a source or a sink configuration always returns: the
    stored string when the key is present and holds a string, the empty string
    when the key is absent or holds a value of another type. *)
Theorem GetString_total (src : SourceConfig float64) (snk : SinkConfig float64)
    (key : string) :
  (∀ val, source_Settings src !! key = Some (JString val) →
          SourceConfig_GetString src key = val) ∧
  (source_Settings src !! key = None → SourceConfig_GetString src key = EmptyString) ∧
  (∀ v, source_Settings src !! key = Some v → (∀ val, v ≠ JString val) →
        SourceConfig_GetString src key = EmptyString) ∧
  (∀ val, sink_Settings snk !! key = Some (JString val) →
          SinkConfig_GetString snk key = val) ∧
  (sink_Settings snk !! key = None → SinkConfig_GetString snk key = EmptyString) ∧
  (∀ v, sink_Settings snk !! key = Some v → (∀ val, v ≠ JString val) →
        SinkConfig_GetString snk key = EmptyString).
Proof.
  unfold SourceConfig_GetString, SinkConfig_GetString.
  repeat split.
  - by intros val ->.
  - by intros ->.
  - intros v -> Hv. destruct v; try done. by destruct (Hv s).
  - by intros val ->.
  - by intros ->.
  - intros v -> Hv. destruct v; try done. by destruct (Hv s).
Qed.

End GetString.

Section GetStringWitness.

Import config.

Lemma GetString_total_witness :
  SourceConfig_GetString
    (mkSourceConfig "mongodb"
       ({[ "uri" := JString "mongodb://localhost:27017"; "port" := JNumber 27017%Z ]}))
    "uri" = "mongodb://localhost:27017" ∧
  SinkConfig_GetString
    (mkSinkConfig "postgresql" ({[ "table" := JString "users"; "batch" := JNumber 100%Z ]}))
    "batch" = EmptyString.
Proof.
  destruct (GetString_total
              (mkSourceConfig "mongodb"
                 ({[ "uri" := JString "mongodb://localhost:27017";
                     "port" := JNumber 27017%Z ]}))
              (mkSinkConfig "postgresql"
                 ({[ "table" := JString "users"; "batch" := JNumber 100%Z ]}))
              "uri") as (Hsrc & _).
  destruct (GetString_total
              (mkSourceConfig "mongodb"
                 ({[ "uri" := JString "mongodb://localhost:27017";
                     "port" := JNumber 27017%Z ]}))
              (mkSinkConfig "postgresql"
                 ({[ "table" := JString "users"; "batch" := JNumber 100%Z ]}))
              "batch") as (_ & _ & _ & _ & _ & Hsnk).
  split.
  - apply Hsrc. reflexivity.
  - apply (Hsnk (JNumber 100%Z)); [reflexivity|discriminate].
Defined.

End GetStringWitness.

(** ** The batching upsert sink *)

Section Sink.

Import bson pipeline sink samples.

Implicit Types (t : table) (e : Event) (batch : list Event).

Local Open Scope nat_scope.
Local Open Scope list_scope.

Lemma is_upsert_not_delete e : is_upsert e = true → is_delete e = false.
Proof.
  unfold is_upsert, is_delete. intros H%bool_decide_eq_true.
  apply bool_decide_eq_false. intros Hd. rewrite Hd in H.
  repeat (apply elem_of_cons in H as [H|H]; [discriminate|]).
  by apply elem_of_nil in H.
Qed.

Lemma upsert_lookup t e :
  upsert t e !! ID e = Some (payload e ∪ match t !! ID e with Some old => old | None => ∅ end).
Proof.
  unfold upsert. destruct (t !! ID e) as [old|]; rewrite lookup_insert_eq; [done|].
  by rewrite (right_id_L ∅ (∪)).
Qed.

Lemma upsert_twice t e : upsert (upsert t e) e = upsert t e.
Proof.
  unfold upsert at 1. rewrite upsert_lookup.
  unfold upsert. destruct (t !! ID e) as [old|]; rewrite insert_insert_eq; f_equal.
  - by rewrite (assoc_L (∪)), (idemp_L (∪)).
  - by rewrite (right_id_L ∅ (∪)), (idemp_L (∪)).
Qed.

Lemma flush_single_upsert t e : is_upsert e = true → flush t [e] = upsert t e.
Proof.
  intros Hu. unfold flush, upsert_group, delete_group.
  rewrite !filter_cons, !filter_nil.
  rewrite decide_True by done.
  rewrite decide_False; [done|]. rewrite (is_upsert_not_delete e Hu). discriminate.
Qed.

Lemma foldl_delete_keeps_absent (dels : list Event) t (id : string) :
  t !! id = None → foldl delete_by_id t dels !! id = None.
Proof.
  revert t. induction dels as [|d dels IH]; intros t Ht; [done|].
  simpl. apply IH. unfold delete_by_id.
  destruct (decide (ID d = id)) as [->|Hne];
    [apply lookup_delete_eq|by rewrite lookup_delete_ne].
Qed.

Lemma foldl_delete_removes (dels : list Event) t (d : Event) :
  d ∈ dels → foldl delete_by_id t dels !! ID d = None.
Proof.
  revert t. induction dels as [|d' dels IH]; intros t Hd.
  - by apply elem_of_nil in Hd.
  - simpl. apply elem_of_cons in Hd as [<-|Hd].
    + apply foldl_delete_keeps_absent. apply lookup_delete_eq.
    + by apply IH.
Qed.

(** C4.  An Event whose operation is insert, update or replace has the same
    effect on the target whether it is applied once or twice with the same
    data, as one write, as two writes of one batch or in two batches; the row
    it leaves has the columns of [data] overwritten and every other column as
    it was, and is [data] alone when there was no row. *)
Theorem upsert_idempotent t e :
  is_upsert e = true →
  upsert (upsert t e) e = upsert t e ∧
  flush t [e; e] = flush t [e] ∧
  flush (flush t [e]) [e] = flush t [e] ∧
  flush t [e] !! ID e
    = Some (payload e ∪ match t !! ID e with Some old => old | None => ∅ end).
Proof.
  intros Hu. pose proof (is_upsert_not_delete e Hu) as Hd.
  split; [apply upsert_twice|].
  rewrite !(flush_single_upsert _ e Hu).
  split; [|split; [apply upsert_twice|apply upsert_lookup]].
  unfold flush, upsert_group, delete_group.
  rewrite !filter_cons, !filter_nil.
  rewrite !decide_True by done.
  rewrite !decide_False by (rewrite Hd; discriminate).
  simpl. apply upsert_twice.
Qed.

Lemma upsert_idempotent_witness :
  is_upsert (event_42 "update" (Some {[ "x" := VInt 1 ]})) = true ∧
  flush (flush row_42 [event_42 "update" (Some {[ "x" := VInt 1 ]})])
        [event_42 "update" (Some {[ "x" := VInt 1 ]})]
    = flush row_42 [event_42 "update" (Some {[ "x" := VInt 1 ]})] ∧
  flush row_42 [event_42 "update" (Some {[ "x" := VInt 1 ]})] !! "42"%string
    = Some ({[ "x" := VInt 1; "z" := VInt 9 ]} : row).
Proof.
  split; [reflexivity|].
  destruct (upsert_idempotent row_42 (event_42 "update" (Some {[ "x" := VInt 1 ]})) eq_refl)
    as (_ & _ & Htwice & Hrow).
  split; [exact Htwice|].
  etrans; [exact Hrow|]. vm_compute. reflexivity.
Defined.

(** C3.  A flush splits the batch into the events with operation insert,
    update or replace and the events with operation delete, each group in the
    order of the batch; it writes the first group, then removes the ids of the
    second.  So an id with an upsert that a delete follows in the batch has no
    row in the target once the batch is done. *)
Theorem flush_deletes_after_upserts t batch :
  upsert_group batch `sublist_of` batch ∧
  delete_group batch `sublist_of` batch ∧
  (∀ e, e ∈ upsert_group batch ↔
        e ∈ batch ∧ Operation e ∈ ["insert"; "update"; "replace"]%string) ∧
  (∀ e, e ∈ delete_group batch ↔ e ∈ batch ∧ Operation e = "delete"%string) ∧
  flush t batch
    = foldl delete_by_id (foldl upsert t (upsert_group batch)) (delete_group batch) ∧
  (∀ i j eu ed,
     i < j → batch !! i = Some eu → batch !! j = Some ed →
     is_upsert eu = true → is_delete ed = true → ID ed = ID eu →
     flush t batch !! ID eu = None).
Proof.
  split; [apply sublist_filter|].
  split; [apply sublist_filter|].
  split.
  { intros e. unfold upsert_group. rewrite list_elem_of_filter.
    unfold is_upsert. rewrite bool_decide_eq_true. tauto. }
  split.
  { intros e. unfold delete_group. rewrite list_elem_of_filter.
    unfold is_delete. rewrite bool_decide_eq_true. tauto. }
  split; [reflexivity|].
  intros i j eu ed _ _ Hj _ Hd <-.
  unfold flush. apply foldl_delete_removes.
  unfold delete_group. apply list_elem_of_filter. split; [done|].
  by apply list_elem_of_lookup_2 in Hj.
Qed.

Lemma flush_deletes_after_upserts_witness :
  1 < 2 ∧
  batch_42 !! 1 = Some (event_42 "update" (Some {[ "y" := VInt 2 ]})) ∧
  batch_42 !! 2 = Some (event_42 "delete" None) ∧
  is_upsert (event_42 "update" (Some {[ "y" := VInt 2 ]})) = true ∧
  is_delete (event_42 "delete" None) = true ∧
  flush row_42 batch_42 !! "42"%string = None.
Proof.
  repeat (split; [first [lia|reflexivity]|]).
  destruct (flush_deletes_after_upserts row_42 batch_42) as (_ & _ & _ & _ & _ & H).
  apply (H 1 2 (event_42 "update" (Some {[ "y" := VInt 2 ]})) (event_42 "delete" None));
    [lia|reflexivity..].
Defined.

End Sink.

(** ** The field mapper *)

Section FieldMapper.

Import bson pipeline transform samples.

Implicit Types (fm : FieldMapper) (data : M) (r : rule) (field : string) (v : value).

Local Open Scope list_scope.

Lemma rule_for_Some fm field r :
  rule_for fm field = Some r → r ∈ rules fm ∧ rule_source r = field.
Proof.
  unfold rule_for. intros [Hin Hsrc]%find_some.
  split; [by apply list_elem_of_In|]. by apply bool_decide_eq_true in Hsrc.
Qed.

Lemma destination_inj (rs : list rule) r1 r2 :
  NoDup (rule_destination <$> rs) → r1 ∈ rs → r2 ∈ rs →
  rule_destination r1 = rule_destination r2 → r1 = r2.
Proof.
  induction rs as [|r rs IH]; intros Hnd H1 H2 Heq; [by apply elem_of_nil in H1|].
  rewrite fmap_cons in Hnd. apply NoDup_cons in Hnd as [Hr Hnd].
  apply elem_of_cons in H1 as [->|H1]; apply elem_of_cons in H2 as [->|H2].
  - done.
  - destruct Hr. rewrite Heq. by apply list_elem_of_fmap_2.
  - destruct Hr. rewrite <- Heq. by apply list_elem_of_fmap_2.
  - by apply IH.
Qed.

Lemma compile_rules_ok cfg fm :
  NewFieldMapper cfg = inr fm →
  NoDup (rule_destination <$> rules fm) ∧ includeAll fm = include_all cfg.
Proof.
  unfold NewFieldMapper. destruct (compile_rules (mappings cfg)) as [err|rs]; [done|].
  destruct (decide (NoDup (rule_destination <$> rs))) as [Hnd|]; [|done].
  by intros [= <-].
Qed.

(** Two fields of one document never land on the same destination. *)
Lemma mapped_keys_NoDup fm (l : list (string * value)) :
  NoDup (rule_destination <$> rules fm) →
  NoDup l.*1 → NoDup (omap (map_field fm) l).*1.
Proof.
  intros Hnd. induction l as [|[k v] l IH]; intros Hl; [constructor|].
  rewrite fmap_cons in Hl. apply NoDup_cons in Hl as [Hk Hl]. simpl.
  destruct (map_field fm (k, v)) as [[d v']|] eqn:Hkv; [|by apply IH].
  rewrite fmap_cons. apply NoDup_cons. split; [|by apply IH].
  intros Hd. apply list_elem_of_fmap in Hd as ([d2 v2] & Heq & Hin). simpl in Heq. subst d2.
  apply list_elem_of_omap in Hin as ([k2 w2] & Hin & Hkv2).
  unfold map_field in Hkv, Hkv2. simpl in Hkv, Hkv2.
  destruct (rule_for fm k) as [r|] eqn:Hr; [|done].
  destruct (rule_for fm k2) as [r2|] eqn:Hr2; [|done].
  injection Hkv as Hd _. injection Hkv2 as Hd2 _.
  apply rule_for_Some in Hr as [Hrin Hrs]. apply rule_for_Some in Hr2 as [Hr2in Hr2s].
  assert (r = r2) as -> by (apply (destination_inj (rules fm)); congruence).
  apply Hk. rewrite <- Hrs, Hr2s. by apply (list_elem_of_fmap_2 fst l (k2, w2)).
Qed.

Lemma mapped_lookup_1 fm data field v r :
  NoDup (rule_destination <$> rules fm) →
  data !! field = Some v → rule_for fm field = Some r →
  mapped fm data !! rule_destination r = Some (format_field r v).1.
Proof.
  intros Hnd Hv Hr. unfold mapped. apply elem_of_list_to_map_1.
  - apply mapped_keys_NoDup; [done|apply NoDup_fst_map_to_list].
  - apply list_elem_of_omap. exists (field, v). split; [by apply elem_of_map_to_list|].
    unfold map_field. simpl. by rewrite Hr.
Qed.

Lemma mapped_lookup_2 fm data dest v' :
  mapped fm data !! dest = Some v' →
  ∃ field v r, data !! field = Some v ∧ rule_for fm field = Some r ∧
               rule_destination r = dest ∧ v' = (format_field r v).1.
Proof.
  unfold mapped. intros Hin%elem_of_list_to_map_2.
  apply list_elem_of_omap in Hin as ([field v] & Hin & Hkv).
  apply elem_of_map_to_list in Hin. unfold map_field in Hkv. simpl in Hkv.
  destruct (rule_for fm field) as [r|] eqn:Hr; [|done].
  injection Hkv as <- <-. by exists field, v, r.
Qed.

(** C5.  For a mapper built by [NewFieldMapper] and an Event with data: with
    [include_all] false the output data holds exactly the mapped fields, each
    under its destination name, so a field no rule names as source is
    dropped; with [include_all] true every field no rule names as source is
    kept under its own name with its value.  The rule firstName -> first_name
    without [include_all] turns [{firstName: "Ann", age: 30}] into
    [{first_name: "Ann"}]. *)
Theorem field_mapper_include_all :
  (∀ cfg fm e data,
     NewFieldMapper cfg = inr fm → Data e = Some data →
     ∃ out, Data (Apply fm e).1.1 = Some out ∧
       (include_all cfg = false →
          (∀ dest v', out !! dest = Some v' →
             ∃ field v r, data !! field = Some v ∧ rule_for fm field = Some r ∧
                          rule_destination r = dest ∧ v' = (format_field r v).1) ∧
          (∀ field v r, data !! field = Some v → rule_for fm field = Some r →
             out !! rule_destination r = Some (format_field r v).1)) ∧
       (include_all cfg = true →
          ∀ field v, data !! field = Some v → rule_for fm field = None →
             out !! field = Some v)) ∧
  (∃ fm, NewFieldMapper rename_firstName = inr fm ∧
         ∀ e, Data e = Some ann →
              Data (Apply fm e).1.1 = Some ({[ "first_name" := VString "Ann" ]} : M)).
Proof.
  split.
  - intros cfg fm e data [Hnd Hall]%compile_rules_ok He.
    exists (map_data fm data). split; [unfold Apply; simpl; by rewrite He|].
    unfold map_data. rewrite Hall.
    split; intros ->.
    + rewrite (left_id_L ∅ (∪)). split.
      * apply mapped_lookup_2.
      * intros field v r. by apply mapped_lookup_1.
    + intros field v Hv Hr. apply lookup_union_Some_l.
      unfold unmapped. by apply map_lookup_filter_Some_2.
  - eexists. split; [vm_compute; reflexivity|].
    intros e He. unfold Apply. simpl. rewrite He. vm_compute. reflexivity.
Qed.

Lemma field_mapper_include_all_witness :
  NewFieldMapper rename_firstName
    = inr (mkFieldMapper [mkRule "firstName" "first_name" None] false) ∧
  Data (event_42 "insert" (Some ann)) = Some ann ∧
  ∃ out,
    Data (Apply (mkFieldMapper [mkRule "firstName" "first_name" None] false)
                (event_42 "insert" (Some ann))).1.1 = Some out ∧
    out !! "first_name"%string = Some (VString "Ann") ∧
    (∀ v', out !! "age"%string = Some v' → False).
Proof.
  split; [vm_compute; reflexivity|]. split; [reflexivity|].
  destruct field_mapper_include_all as [H _].
  destruct (H rename_firstName (mkFieldMapper [mkRule "firstName" "first_name" None] false)
              (event_42 "insert" (Some ann)) ann
              ltac:(vm_compute; reflexivity) eq_refl) as (out & Hout & Hfalse & _).
  destruct (Hfalse eq_refl) as [Honly Hmapped].
  exists out. split; [exact Hout|]. split.
  - apply (Hmapped "firstName"%string (VString "Ann") (mkRule "firstName" "first_name" None));
      reflexivity.
  - intros v' Hage. destruct (Honly _ _ Hage) as (field & v & r & _ & Hr & Hd & _).
    apply rule_for_Some in Hr as [Hin _].
    apply elem_of_cons in Hin as [->|Hin]; [discriminate Hd|by apply elem_of_nil in Hin].
Defined.

End FieldMapper.

(** ** The orchestrator *)

Section Orchestrator.

Import pipeline orchestrator samples.

Context {S K T : Type} `{!Source S, !Sink K, !Transformer T}.

(** C6.  When [Connect] of the source fails, or [Connect] of the sink fails
    after the source connected, [Run] ends in the fatal connect error of that
    stage, and the only calls it has made are the [Connect] calls: the source
    was not asked to stream and nothing was written to the sink. *)
Theorem Run_connect_failure_is_fatal (s : S) (k : K) (tr : T) :
  (∀ err, (source_Connect s).2 = Some err →
     (Run s k tr).2 = FatalConnectError "source" err ∧
     calls (Run s k tr).1 = [CallSourceConnect] ∧
     events_flowed (Run s k tr).1 = false) ∧
  (∀ err, (source_Connect s).2 = None → (sink_Connect k).2 = Some err →
     (Run s k tr).2 = FatalConnectError "sink" err ∧
     calls (Run s k tr).1 = [CallSourceConnect; CallSinkConnect] ∧
     asked_to_stream (Run s k tr).1 = false ∧
     events_flowed (Run s k tr).1 = false).
Proof.
  split.
  - intros err Hs. unfold Run, Run_steps, bind, connect_source, bind, record. simpl.
    destruct (source_Connect s) as [s' r]. simpl in Hs. subst r. by simpl.
  - intros err Hs Hk. unfold Run, Run_steps, bind, connect_source, connect_sink, bind, record.
    simpl.
    destruct (source_Connect s) as [s' r]. simpl in Hs. subst r. simpl.
    destruct (sink_Connect k) as [k' r]. simpl in Hk. subst r. by simpl.
Qed.

End Orchestrator.

Section OrchestratorWitness.

Import pipeline orchestrator samples.

Lemma Run_connect_failure_is_fatal_witness :
  (Run (fresh_source, healthy) (empty_sink, Some "connection refused"%string)
       transform.NewPassThroughTransformer).2
    = FatalConnectError "sink" "connection refused" ∧
  asked_to_stream
    (Run (fresh_source, healthy) (empty_sink, Some "connection refused"%string)
         transform.NewPassThroughTransformer).1 = false.
Proof.
  destruct (Run_connect_failure_is_fatal
              (fresh_source, healthy) (empty_sink, Some "connection refused"%string)
              transform.NewPassThroughTransformer) as [_ H].
  destruct (H "connection refused"%string eq_refl eq_refl) as (Hr & _ & Ha & _).
  split; [exact Hr|exact Ha].
Defined.

End OrchestratorWitness.

(** ** The stages at work *)

Section Examples.

Import bson pipeline samples.

Local Open Scope list_scope.

Example Sprintf_v_document :
  Sprintf_v (VDoc {[ "b" := VInt (-1); "a" := VString "x";
                     "c" := VArray [VNil; VBool true] ]})
    = "map[a:x b:-1 c:[<nil> true]]"%string.
Proof. vm_compute. reflexivity. Qed.

(** The pass-through transformer leaves the data as it is. *)
Lemma passthrough_map_data (data : M) :
  transform.map_data transform.NewPassThroughTransformer data = data.
Proof.
  unfold transform.map_data, transform.mapped, transform.unmapped. simpl.
  assert (Hnone : ∀ l : list (string * value),
             omap (transform.map_field transform.NewPassThroughTransformer) l = [])
    by (induction l as [|kv l IH]; [done|exact IH]).
  rewrite Hnone. simpl. rewrite (right_id_L ∅ (∪)).
  apply map_filter_id. done.
Qed.

Example lowercase_email :
  match transform.NewFieldMapper
          (transform.mkFieldMapperConfig
             [transform.mkFieldMapping "email" None (Some "lowercase"%string)] true) with
  | inr fm => Some (transform.map_data fm {[ "email" := VString "A@B.COM"; "age" := VInt 30 ]})
  | inl _ => None
  end = Some ({[ "email" := VString "a@b.com"; "age" := VInt 30 ]} : M).
Proof. vm_compute. reflexivity. Qed.

Example duplicate_destination_rejected :
  transform.NewFieldMapper
    (transform.mkFieldMapperConfig
       [transform.mkFieldMapping "a" (Some "c") None;
        transform.mkFieldMapping "b" (Some "c") None] true)
  = inl "duplicate destination field"%string.
Proof. vm_compute. reflexivity. Qed.

(** With a threshold of two, three events go out as a full batch and a
    drained one. *)
Example Write_batches :
  sink.target (sink.Write (sink.mkPostgreSQLSink ∅ [] 2) batch_42) = ∅ ∧
  sink.target (foldl sink.accept (sink.mkPostgreSQLSink ∅ [] 2) batch_42)
    !! "42"%string = Some ({[ "x" := VInt 1; "y" := VInt 2 ]} : sink.row).
Proof. split; vm_compute; reflexivity. Qed.

(** A receiver that takes nothing leaves the goroutine at its first send:
    neither channel is closed. *)
Example Read_blocked_at_first_send :
  source.deliver 0
    (source.Read connected_source clock
       (inr (source.mkChangeStream [inr insert_change] None))) = [].
Proof. reflexivity. Qed.

(** The update without fields reaches the sink as the source made it. *)
Example empty_update_reaches_sink :
  let r := orchestrator.Run
             (fresh_source,
              main.mkDeployment (inr mongo.Connected) None
                (inr (source.mkChangeStream [inr unset_change] None)) clock)
             (empty_sink, None) transform.NewPassThroughTransformer in
  ∃ e, orchestrator.calls r.1 !! 3 = Some (orchestrator.CallSinkWrite [e]) ∧
       Operation e = "update"%string ∧ Data e = Some ∅.
Proof. eexists. vm_compute. repeat split; reflexivity. Qed.

(** A run against a deployment that answers: the insertion reaches the target
    under the id the source gave it, and the run stops cleanly. *)
Example healthy_run :
  let r := orchestrator.Run (fresh_source, healthy) (empty_sink, None)
             transform.NewPassThroughTransformer in
  r.2 = orchestrator.StoppedCleanly ∧
  sink.target (orchestrator.snk r.1).1
    = {[ "map[_data:8263A1F0]"%string :=
           ({[ "_id" := VInt 42; "name" := VString "Ann" ]} : sink.row) ]}.
Proof. split; vm_compute; reflexivity. Qed.

End Examples.

(** * Further properties of the code *)

(** ** Conversion of change documents *)

Section Conversion.

Import bson pipeline source samples.

Context {Client : Type}.
Implicit Types (m : MongoDBSource Client) (doc full updated : M).

Local Open Scope list_scope.

(** X1.  [convertBSONToMap] returns a map with exactly the entries of its
    argument: every key looks up to the same value, nothing is added, nothing
    is lost, and the empty document gives the empty map. *)
Theorem convertBSONToMap_same_entries doc :
  (∀ k, convertBSONToMap doc !! k = doc !! k) ∧
  dom (convertBSONToMap doc) = dom doc ∧
  size (convertBSONToMap doc) = size doc ∧
  convertBSONToMap (∅ : M) = ∅.
Proof.
  rewrite !convertBSONToMap_copy. repeat split.
Qed.

(** X2.  When the change document carries both a full document and updated
    fields, the Event's data holds the keys of either; on a key in both, the
    value of the updated fields wins over the value of the full document. *)
Theorem convertChangeEvent_updated_fields_win m now doc full updated :
  as_M (doc !! "fullDocument"%string) = Some full →
  updatedFields_of doc = Some updated →
  ∃ d, Data (convertChangeEvent m now doc) = Some d ∧
       (∀ k v, updated !! k = Some v → d !! k = Some v) ∧
       (∀ k, updated !! k = None → d !! k = full !! k) ∧
       dom d = dom updated ∪ dom full.
Proof.
  intros Hfull Hupd. exists (updated ∪ full).
  rewrite convertChangeEvent_Data, Hupd, Hfull.
  split; [done|]. split; [|split].
  - intros k v Hk. by apply lookup_union_Some_l.
  - intros k Hk. by apply lookup_union_r.
  - apply dom_union_L.
Qed.

(** X3.  The Event's data is the nil map exactly when the change document has
    no document under [fullDocument] and no document under
    [updateDescription.updatedFields]; in every other case the map is
    allocated, even when it stays empty. *)
Theorem convertChangeEvent_Data_nil m now doc :
  Data (convertChangeEvent m now doc) = None ↔
  as_M (doc !! "fullDocument"%string) = None ∧ updatedFields_of doc = None.
Proof.
  rewrite convertChangeEvent_Data.
  destruct (updatedFields_of doc), (as_M (doc !! "fullDocument"%string));
    split; (try by intros [? ?]); (try done).
Qed.

(** X4.  [convertChangeEvent] reads four keys of the change document and no
    other: setting or removing any other key ([documentKey], [ns],
    [clusterTime], ...) leaves the Event as it is. *)
Theorem convertChangeEvent_reads_four_keys m now doc (k : string) (v : value) :
  k ∉ ["_id"; "operationType"; "fullDocument"; "updateDescription"]%string →
  convertChangeEvent m now (<[k := v]> doc) = convertChangeEvent m now doc ∧
  convertChangeEvent m now (delete k doc) = convertChangeEvent m now doc.
Proof.
  intros Hk.
  assert (k ≠ "_id"%string ∧ k ≠ "operationType"%string ∧ k ≠ "fullDocument"%string
          ∧ k ≠ "updateDescription"%string) as (H1 & H2 & H3 & H4).
  { repeat split; intros ->; apply Hk; set_solver. }
  unfold convertChangeEvent.
  split.
  - by rewrite !lookup_insert_ne.
  - by rewrite !lookup_delete_ne.
Qed.

End Conversion.

Section ConversionWitnesses.

Import bson pipeline source samples.

Lemma convertChangeEvent_updated_fields_win_witness :
  as_M (update_change !! "fullDocument"%string)
    = Some ({[ "_id" := VInt 42; "name" := VString "Ann"; "age" := VInt 32 ]} : M) ∧
  updatedFields_of update_change = Some ({[ "age" := VInt 31 ]} : M) ∧
  ∃ d, Data (convertChangeEvent connected_source (clock 0) update_change) = Some d ∧
       d !! "age"%string = Some (VInt 31) ∧
       d !! "name"%string = Some (VString "Ann").
Proof.
  split; [reflexivity|]. split; [reflexivity|].
  destruct (convertChangeEvent_updated_fields_win connected_source (clock 0) update_change
              {[ "_id" := VInt 42; "name" := VString "Ann"; "age" := VInt 32 ]}
              {[ "age" := VInt 31 ]} eq_refl eq_refl) as (d & Hd & Hwin & Hkeep & _).
  exists d. split; [exact Hd|]. split.
  - apply Hwin. reflexivity.
  - rewrite Hkeep; reflexivity.
Defined.

Lemma convertChangeEvent_reads_four_keys_witness :
  convertChangeEvent connected_source (clock 0)
    (<[ "documentKey"%string := VDoc {[ "_id"%string := VInt 7 ]} ]> insert_change)
    = convertChangeEvent connected_source (clock 0) insert_change.
Proof.
  apply (convertChangeEvent_reads_four_keys connected_source (clock 0) insert_change
           "documentKey"%string (VDoc {[ "_id"%string := VInt 7 ]})).
  intros H. repeat (apply elem_of_cons in H as [H|H]; [discriminate H|]).
  by apply elem_of_nil in H.
Defined.

End ConversionWitnesses.

(** ** The goroutine of [Read] *)

Section ReadStream.

Import bson pipeline source samples.

Context {Client : Type}.
Implicit Types (m : MongoDBSource Client) (prog t body rest : list action)
  (its : list (error + M)).

Local Open Scope nat_scope.
Local Open Scope list_scope.

Lemma sent_events_Read_loop m now i its :
  sent_events (Read_loop m now i its)
    = omap (λ x : option Event, x)
        (imap (λ j it, match it with
                       | inr doc => Some (convertChangeEvent m (now (i + j)) doc)
                       | inl _ => None
                       end) its).
Proof.
  revert i. induction its as [|[err|doc] its IH]; intros i; [done|..].
  - rewrite imap_cons. simpl. unfold sent_events in *. rewrite (IH (S i)).
    f_equal. apply imap_ext. intros j it _. simpl.
    by replace (S (i + j)) with (i + S j) by lia.
  - rewrite imap_cons. simpl. unfold sent_events in *. rewrite (IH (S i)).
    rewrite Nat.add_0_r. f_equal. f_equal. apply imap_ext. intros j it _. simpl.
    by replace (S (i + j)) with (i + S j) by lia.
Qed.

Lemma sent_errors_Read_loop m now i its :
  sent_errors (Read_loop m now i its)
    = omap (λ it, match it with
                  | inl err => Some ("failed to decode change event: " ++ err)%string
                  | inr _ => None
                  end) its.
Proof.
  revert i. induction its as [|[err|doc] its IH]; intros i; [done|..];
    simpl; unfold sent_errors in *; by rewrite IH.
Qed.

Lemma Read_loop_all_sends m now i its :
  Forall (λ a, is_send a = true) (Read_loop m now i its).
Proof.
  revert i. induction its as [|[err|doc] its IH]; intros i; simpl;
    [constructor|constructor; [done|apply IH]..].
Qed.

Lemma sends_all prog : Forall (λ a, is_send a = true) prog → sends prog = length prog.
Proof.
  unfold sends. induction 1 as [|a prog Ha _ IH]; [done|].
  rewrite filter_cons, decide_True by done. simpl. by rewrite IH.
Qed.

Lemma sends_app prog rest : sends (prog ++ rest) = sends prog + sends rest.
Proof. unfold sends. by rewrite filter_app, length_app. Qed.

Lemma sends_none rest : Forall (λ a, is_send a = false) rest → sends rest = 0.
Proof.
  unfold sends. induction 1 as [|a rest Ha _ IH]; [done|].
  rewrite filter_cons, decide_False; [done|]. by rewrite Ha.
Qed.

(** A goroutine stuck at a send has not come to any [close]. *)
Lemma deliver_blocked budget body rest :
  Forall (λ a, is_close_errors a = false ∧ is_close_events a = false) body →
  Forall (λ a, is_send a = false) rest →
  budget < sends (body ++ rest) →
  Forall (λ a, is_close_errors a = false ∧ is_close_events a = false)
    (deliver budget (body ++ rest)).
Proof.
  intros Hbody Hrest. revert budget.
  induction Hbody as [|a body Ha _ IH]; intros budget Hlt.
  - simpl in Hlt. rewrite (sends_none rest Hrest) in Hlt. lia.
  - simpl. change ((a :: body) ++ rest) with ([a] ++ (body ++ rest)) in Hlt.
    rewrite sends_app in Hlt. unfold sends at 1 in Hlt.
    rewrite filter_cons, filter_nil in Hlt.
    destruct (is_send a) eqn:Hs.
    + rewrite decide_True in Hlt by done. simpl in Hlt.
      destruct budget as [|b]; [constructor|].
      constructor; [done|]. apply IH. lia.
    + rewrite decide_False in Hlt by (by intros ?). simpl in Hlt.
      constructor; [done|]. by apply IH.
Qed.

(** X5.  On a connected source, the events [Read] offers are the conversions
    of the documents that decoded, in the order of the stream, the one at
    position [i] stamped with the clock reading of iteration [i]; a document
    that does not decode is skipped and the stream goes on. *)
Theorem Read_events_in_stream_order m now (stream : ChangeStream) :
  is_Some (client m) →
  sent_events (Read m now (inr stream))
    = omap (λ x : option Event, x)
        (imap (λ i it, match it with
                       | inr doc => Some (convertChangeEvent m (now i) doc)
                       | inl _ => None
                       end) (items stream)).
Proof.
  intros [c Hc]. unfold Read. rewrite Hc.
  unfold sent_events. rewrite !omap_app.
  pose proof (sent_events_Read_loop m now 0 (items stream)) as Hloop.
  unfold sent_events in Hloop. rewrite Hloop.
  destruct (stream_err stream); simpl; by rewrite (right_id_L [] (++)).
Qed.

(** X6.  On a connected source, the errors [Read] offers are one decode error
    for each document that did not decode, in the order of the stream,
    followed by the error of the stream if it ended with one; when the change
    stream cannot be created, the one error of [Watch] is offered and no
    event. *)
Theorem Read_errors_in_stream_order m now :
  is_Some (client m) →
  (∀ stream : ChangeStream,
     sent_errors (Read m now (inr stream))
       = omap (λ it, match it with
                     | inl err => Some ("failed to decode change event: " ++ err)%string
                     | inr _ => None
                     end) (items stream)
         ++ match stream_err stream with
            | Some err => ["change stream error: " ++ err]%string
            | None => []
            end) ∧
  (∀ err : error,
     sent_errors (Read m now (inl err)) = ["failed to create change stream: " ++ err]%string ∧
     sent_events (Read m now (inl err)) = []).
Proof.
  intros [c Hc]. unfold Read. rewrite Hc. split; [|done].
  intros stream. unfold sent_errors. rewrite !omap_app.
  pose proof (sent_errors_Read_loop m now 0 (items stream)) as Hloop.
  unfold sent_errors in Hloop. rewrite Hloop.
  destruct (stream_err stream); simpl; by rewrite ?(right_id_L [] (++)).
Qed.

(** X7.  On a connected source whose change stream was created, the goroutine
    sends one value for every item of the stream, one more if the stream
    ended with an error, then closes the stream, the errors channel and the
    events channel, in this order; when [Watch] failed there is no stream and
    it is not closed. *)
Theorem Read_closes_stream_then_channels m now :
  is_Some (client m) →
  (∀ stream : ChangeStream,
     ∃ body, Read m now (inr stream) = body ++ [StreamClose; CloseErrors; CloseEvents] ∧
             Forall (λ a, is_send a = true) body ∧
             length body = length (items stream)
                           + match stream_err stream with Some _ => 1 | None => 0 end) ∧
  (∀ err : error, Forall (λ a, a ≠ StreamClose) (Read m now (inl err))).
Proof.
  intros [c Hc]. unfold Read. rewrite Hc. split.
  - intros stream.
    exists (Read_loop m now 0 (items stream)
            ++ match stream_err stream with
               | Some err => [SendError ("change stream error: " ++ err)%string]
               | None => []
               end).
    split; [by rewrite <- (assoc_L (++))|]. split.
    + apply Forall_app. split; [apply Read_loop_all_sends|].
      destruct (stream_err stream); repeat constructor.
    + rewrite length_app. f_equal.
      * generalize 0. induction (items stream) as [|[e|d] its IH]; intros i; simpl;
          [done|by rewrite IH..].
      * by destruct (stream_err stream).
  - intros err. repeat constructor; discriminate.
Qed.

(** X8.  Both channels are unbuffered and a send waits for its receiver
    whatever the context does: the goroutine gets to close the events channel
    exactly when the receivers have taken every value it sends, and the same
    for the errors channel.  While a value is left untaken, neither channel
    is closed. *)
Theorem Read_closes_iff_all_taken m now (watch : error + ChangeStream) (budget : nat) :
  (events_closed (deliver budget (Read m now watch)) = true
     ↔ sends (Read m now watch) ≤ budget) ∧
  (errors_closed (deliver budget (Read m now watch)) = true
     ↔ sends (Read m now watch) ≤ budget).
Proof.
  destruct (Read_shape m now watch) as (body & tail & Heq & Hbody & Htail).
  assert (Hrest : Forall (λ a, is_send a = false) (CloseErrors :: CloseEvents :: tail)).
  { repeat constructor. eapply Forall_impl; [exact Htail|]. by intros ? [? _]. }
  destruct (decide (sends (Read m now watch) ≤ budget)) as [Hle|Hgt].
  - split; (split; [by intros _|intros _]);
      rewrite (deliver_all budget _ Hle), Heq;
      unfold events_closed, errors_closed; rewrite existsb_app; simpl;
      by rewrite !orb_true_r.
  - assert (Hlt : budget < sends (body ++ CloseErrors :: CloseEvents :: tail))
      by (rewrite <- Heq; lia).
    pose proof (deliver_blocked budget body _ Hbody Hrest Hlt) as Hd.
    rewrite <- Heq in Hd.
    destruct (existsb_no_close_errors _ Hd) as [H1 H2].
    unfold events_closed, errors_closed. rewrite H1, H2.
    split; (split; [discriminate|by intros ?]).
Qed.

End ReadStream.

Section ReadStreamWitnesses.

Import bson pipeline source samples.

Local Open Scope list_scope.

Lemma Read_events_in_stream_order_witness :
  is_Some (client connected_source) ∧
  sent_events (Read connected_source clock (inr mixed_stream))
    = [convertChangeEvent connected_source (clock 0) insert_change;
       convertChangeEvent connected_source (clock 2) update_change].
Proof.
  split; [by eexists|].
  rewrite (Read_events_in_stream_order connected_source clock mixed_stream); [|by eexists].
  reflexivity.
Defined.

Lemma Read_errors_in_stream_order_witness :
  is_Some (client connected_source) ∧
  sent_errors (Read connected_source clock (inr mixed_stream))
    = ["failed to decode change event: invalid document";
       "change stream error: context canceled"]%string.
Proof.
  split; [by eexists|].
  destruct (Read_errors_in_stream_order connected_source clock) as [H _]; [by eexists|].
  rewrite (H mixed_stream). reflexivity.
Defined.

Lemma Read_closes_stream_then_channels_witness :
  is_Some (client connected_source) ∧
  ∃ body, Read connected_source clock (inr mixed_stream)
            = body ++ [StreamClose; CloseErrors; CloseEvents] ∧
          length body = 4.
Proof.
  split; [by eexists|].
  destruct (Read_closes_stream_then_channels connected_source clock) as [H _]; [by eexists|].
  destruct (H mixed_stream) as (body & Hbody & _ & Hlen).
  exists body. split; [exact Hbody|exact Hlen].
Defined.

End ReadStreamWitnesses.

(** ** When the channels of [Read] close *)

Section ReadChannels.

Import bson pipeline source samples.

Local Open Scope nat_scope.
Local Open Scope list_scope.

Lemma Read_loop_length {Client} (m : MongoDBSource Client) (now : nat → Z) (i : nat)
    (its : list (error + M)) :
  length (Read_loop m now i its) = length its.
Proof.
  revert i. induction its as [|[err|doc] its IH]; intros i; simpl; [done|by rewrite IH..].
Qed.

(** C7 as stated fails: the context is canceled on a stream without items;
    the goroutine then has the error of the stream to send, the receivers
    take nothing any more, and neither channel is ever closed. *)
Lemma channels_left_open_after_cancel :
  ¬ (∀ (m : MongoDBSource mongo.Client) (now : nat → Z) (watch : error + ChangeStream)
       (budget : nat),
       let t := deliver budget (Read m now watch) in
       events_closed t = errors_closed t ∧
       (∀ pre a post, t = pre ++ a :: post →
          is_close_errors a = true ∨ is_close_events a = true →
          Forall (λ b, is_send b = false) post) ∧
       events_closed t = true ∧ errors_closed t = true).
Proof.
  intros H.
  destruct (H connected_source clock
              (inr (mkChangeStream [] (Some "context canceled"%string))) 0)
    as (_ & _ & Hclosed & _).
  discriminate Hclosed.
Qed.

(** C7, amended.  The goroutine of [Read] closes the two channels together,
    but only once every value it sends has been taken.  Whatever the stream
    does and however many values the receivers take: the events channel is
    closed exactly when the errors channel is; nothing is sent on either
    channel once one of them is closed; both are closed exactly when the
    receivers have taken every value the goroutine sends, and then it has run
    its whole program.  On a connected source with a change stream these
    values are one for every item of the stream and one more for the error
    the stream ended with (as after a cancellation), and the two [close]
    calls come last, after the stream is closed; when [Watch] fails there is
    the one error to take before the two [close] calls. *)
Theorem Read_channels_close_when_all_taken {Client} (m : MongoDBSource Client)
    (now : nat → Z) (watch : error + ChangeStream) (budget : nat) :
  let prog := Read m now watch in
  let t := deliver budget prog in
  events_closed t = errors_closed t ∧
  (∀ pre a post, t = pre ++ a :: post →
     is_close_errors a = true ∨ is_close_events a = true →
     Forall (λ b, is_send b = false) post) ∧
  (events_closed t = true ↔ sends prog ≤ budget) ∧
  (errors_closed t = true ↔ sends prog ≤ budget) ∧
  (sends prog ≤ budget → t = prog) ∧
  (∀ stream, is_Some (client m) → watch = inr stream →
     sends prog = length (items stream)
                  + match stream_err stream with Some _ => 1 | None => 0 end ∧
     ∃ body, prog = body ++ [StreamClose; CloseErrors; CloseEvents] ∧
             Forall (λ a, is_send a = true) body) ∧
  (∀ err, is_Some (client m) → watch = inl err →
     prog = [SendError ("failed to create change stream: " ++ err)%string;
             CloseErrors; CloseEvents]).
Proof.
  cbv zeta.
  destruct (Read_shape m now watch) as (body & tail & Heq & Hbody & Htail).
  destruct (deliver_shape budget body tail Hbody Htail) as (d & Hd & Hdone).
  assert (Htail' : Forall (λ a, is_send a = false) tail)
    by (eapply Forall_impl; [exact Htail|]; by intros ? [? _]).
  assert (Hrest : Forall (λ a, is_send a = false) (CloseErrors :: CloseEvents :: tail))
    by (by repeat constructor).
  destruct (existsb_no_close_errors d Hd) as [Hd1 Hd2].
  assert (Hiff : (events_closed (deliver budget (Read m now watch)) = true
                    ↔ sends (Read m now watch) ≤ budget) ∧
                 (errors_closed (deliver budget (Read m now watch)) = true
                    ↔ sends (Read m now watch) ≤ budget)).
  { destruct (decide (sends (Read m now watch) ≤ budget)) as [Hle|Hgt].
    - split; (split; [by intros _|intros _]);
        rewrite (deliver_all budget _ Hle), Heq;
        unfold events_closed, errors_closed; rewrite existsb_app; simpl;
        by rewrite !orb_true_r.
    - assert (Hlt : budget < sends (body ++ CloseErrors :: CloseEvents :: tail))
        by (rewrite <- Heq; lia).
      pose proof (deliver_blocked budget body _ Hbody Hrest Hlt) as Hb.
      rewrite <- Heq in Hb.
      destruct (existsb_no_close_errors _ Hb) as [H1 H2].
      unfold events_closed, errors_closed. rewrite H1, H2.
      split; (split; [discriminate|by intros ?]). }
  destruct Hiff as [Hev Her].
  split; [|split; [|split; [exact Hev|split; [exact Her|split; [|split]]]]].
  - unfold events_closed, errors_closed. rewrite Heq. destruct Hdone as [->| ->].
    + by rewrite Hd1, Hd2.
    + rewrite !existsb_app. simpl. by rewrite Hd1, Hd2, !orb_true_r.
  - intros pre a post Ht Ha. rewrite Heq in Ht. destruct Hdone as [Hdone|Hdone];
      rewrite Hdone in Ht.
    + apply (quiet_after_close d [] pre a post); [done|constructor| |done].
      by rewrite (right_id_L [] (++)).
    + by apply (quiet_after_close d (CloseErrors :: CloseEvents :: tail) pre a post).
  - apply deliver_all.
  - intros stream [c Hc] ->. unfold Read. rewrite Hc.
    assert (Hsends : Forall (λ a, is_send a = true)
              (Read_loop m now 0 (items stream)
               ++ match stream_err stream with
                  | Some err => [SendError ("change stream error: " ++ err)%string]
                  | None => []
                  end)).
    { apply Forall_app. split; [apply Read_loop_all_sends|].
      destruct (stream_err stream); repeat constructor. }
    split.
    + rewrite (assoc_L (++)), sends_app, (sends_all _ Hsends), length_app, Read_loop_length.
      rewrite (sends_none [StreamClose; CloseErrors; CloseEvents]) by (by repeat constructor).
      destruct (stream_err stream); simpl; lia.
    + eexists. split; [by rewrite (assoc_L (++))|exact Hsends].
  - intros err [c Hc] ->. unfold Read. by rewrite Hc.
Qed.

Lemma Read_channels_close_when_all_taken_witness :
  sends (Read connected_source clock (inr mixed_stream)) = 4 ∧
  events_closed (deliver 4 (Read connected_source clock (inr mixed_stream))) = true ∧
  errors_closed (deliver 4 (Read connected_source clock (inr mixed_stream))) = true ∧
  events_closed (deliver 3 (Read connected_source clock (inr mixed_stream))) = false ∧
  errors_closed (deliver 3 (Read connected_source clock (inr mixed_stream))) = false.
Proof.
  destruct (Read_channels_close_when_all_taken connected_source clock (inr mixed_stream) 4)
    as (_ & _ & Hev4 & Her4 & _ & Hcount & _).
  destruct (Read_channels_close_when_all_taken connected_source clock (inr mixed_stream) 3)
    as (_ & _ & Hev3 & Her3 & _).
  destruct (Hcount mixed_stream) as [Hcount4 _]; [by eexists|reflexivity|].
  assert (Hsends : sends (Read connected_source clock (inr mixed_stream)) = 4)
    by exact Hcount4.
  split; [exact Hsends|].
  split; [apply Hev4; rewrite Hsends; lia|].
  split; [apply Her4; rewrite Hsends; lia|].
  split.
  - destruct (events_closed (deliver 3 (Read connected_source clock (inr mixed_stream))));
      [|done].
    destruct Hev3 as [Hev3 _]. specialize (Hev3 eq_refl). rewrite Hsends in Hev3. lia.
  - destruct (errors_closed (deliver 3 (Read connected_source clock (inr mixed_stream))));
      [|done].
    destruct Her3 as [Her3 _]. specialize (Her3 eq_refl). rewrite Hsends in Her3. lia.
Defined.

End ReadChannels.

(** ** [Connect] and [Close] *)

Section ConnectClose.

Import source samples.

Context {Client : Type}.
Implicit Types (m : MongoDBSource Client) (dial : error + Client)
  (ping : Client → option error) (Disconnect : Client → Client * option error).

(** X9.  [Connect] returns nil exactly when the driver connected and the
    ping succeeded, and then the source holds the new client; a failed
    [Connect] leaves the source as it was, so a client that connected but did
    not answer the ping is not kept.  The connection settings never change. *)
Theorem Connect_stores_client_on_success dial ping m :
  ((Connect dial ping m).2 = None ↔ ∃ c, dial = inr c ∧ ping c = None) ∧
  (∀ c, dial = inr c → ping c = None → client (Connect dial ping m).1 = Some c) ∧
  ((Connect dial ping m).2 ≠ None → (Connect dial ping m).1 = m) ∧
  uri (Connect dial ping m).1 = uri m ∧
  database (Connect dial ping m).1 = database m ∧
  collection (Connect dial ping m).1 = collection m.
Proof.
  unfold Connect. destruct dial as [err|c]; simpl.
  - repeat split; try done. by intros (c & [=] & _).
  - destruct (ping c) as [err|] eqn:Hping; simpl.
    + repeat split; try done.
      * intros (c' & [= <-] & Hc'). congruence.
      * intros c' [= <-] Hc'. congruence.
    + repeat split; try done.
      * intros _. by exists c.
      * by intros c' [= <-] _.
Qed.

(** X10.  [Close] after [Connect]: on a new source whose [Connect] failed,
    [Close] returns nil, leaves the source as it was built and does not
    depend on the driver; after a successful [Connect], [Close] returns what
    the driver's [Disconnect] returns on the client [Connect] stored. *)
Theorem Close_after_Connect dial ping Disconnect (u d c : string) :
  ((Connect dial ping (NewMongoDBSource u d c)).2 ≠ None →
     Close Disconnect (Connect dial ping (NewMongoDBSource u d c)).1
       = (NewMongoDBSource u d c, None)) ∧
  (∀ cl, dial = inr cl → ping cl = None →
     (Close Disconnect (Connect dial ping (NewMongoDBSource u d c)).1).2
       = (Disconnect cl).2 ∧
     client (Close Disconnect (Connect dial ping (NewMongoDBSource u d c)).1).1
       = Some (Disconnect cl).1).
Proof.
  unfold Connect. split.
  - destruct dial as [err|cl]; simpl; [done|].
    destruct (ping cl); simpl; [done|]. by intros [].
  - intros cl -> Hping. rewrite Hping. unfold Close. simpl.
    by destruct (Disconnect cl).
Qed.

End ConnectClose.

Section ConnectCloseWitnesses.

Import source samples.

Lemma Connect_stores_client_on_success_witness :
  client (Connect (inr mongo.Connected) (λ _, None) fresh_source).1 = Some mongo.Connected ∧
  (Connect (inr mongo.Connected) (λ _, Some "server selection timeout"%string) fresh_source).2
    ≠ None ∧
  (Connect (inr mongo.Connected) (λ _, Some "server selection timeout"%string) fresh_source).1
    = fresh_source.
Proof.
  destruct (Connect_stores_client_on_success (inr mongo.Connected) (λ _, None) fresh_source)
    as (_ & Hok & _).
  destruct (Connect_stores_client_on_success (inr mongo.Connected)
              (λ _, Some "server selection timeout"%string) fresh_source)
    as (_ & _ & Hfail & _).
  split; [apply (Hok mongo.Connected); reflexivity|].
  split; [discriminate|]. apply Hfail. discriminate.
Defined.

Lemma Close_after_Connect_witness :
  Close mongo.Disconnect
    (Connect (inl "no reachable servers"%string) (λ _, None) fresh_source).1
    = (fresh_source, None) ∧
  (Close mongo.Disconnect (Connect (inr mongo.Connected) (λ _, None) fresh_source).1).2
    = None.
Proof.
  destruct (Close_after_Connect (inl "no reachable servers"%string) (λ _, None)
              mongo.Disconnect "mongodb://localhost:27017" "mydb" "users") as [Hfail _].
  destruct (Close_after_Connect (inr mongo.Connected) (λ _, None)
              mongo.Disconnect "mongodb://localhost:27017" "mydb" "users") as [_ Hok].
  split.
  - apply Hfail. discriminate.
  - apply (Hok mongo.Connected); reflexivity.
Defined.

End ConnectCloseWitnesses.

(** ** Settings and the wiring of [main] *)

Section Settings.

Import config.

Context {float64 : Type}.

(** X11.  A non-empty result of [GetString] is always the string stored under
    the key; storing a string under a key makes [GetString] return it, and
    storing anything under a key leaves the result for every other key as it
    was.  An empty result does not tell a stored empty string from a missing
    or mistyped setting. *)
Theorem GetString_reads_what_was_stored (t : string) (settings : gmap string (jvalue float64))
    (key : string) :
  (SourceConfig_GetString (mkSourceConfig t settings) key ≠ EmptyString →
     settings !! key
       = Some (JString (SourceConfig_GetString (mkSourceConfig t settings) key))) ∧
  (SinkConfig_GetString (mkSinkConfig t settings) key ≠ EmptyString →
     settings !! key
       = Some (JString (SinkConfig_GetString (mkSinkConfig t settings) key))) ∧
  (∀ val, SourceConfig_GetString (mkSourceConfig t (<[key := JString val]> settings)) key = val
          ∧ SinkConfig_GetString (mkSinkConfig t (<[key := JString val]> settings)) key = val) ∧
  (∀ key' v, key ≠ key' →
     SourceConfig_GetString (mkSourceConfig t (<[key := v]> settings)) key'
       = SourceConfig_GetString (mkSourceConfig t settings) key' ∧
     SinkConfig_GetString (mkSinkConfig t (<[key := v]> settings)) key'
       = SinkConfig_GetString (mkSinkConfig t settings) key') ∧
  SourceConfig_GetString (mkSourceConfig t (<[key := JString EmptyString]> settings)) key
    = SourceConfig_GetString (mkSourceConfig t (delete key settings)) key.
Proof.
  unfold SourceConfig_GetString, SinkConfig_GetString. simpl.
  split; [|split; [|split; [|split]]].
  - destruct (settings !! key) as [[]|]; simpl; done.
  - destruct (settings !! key) as [[]|]; simpl; done.
  - intros val. by rewrite lookup_insert_eq.
  - intros key' v Hne. by rewrite lookup_insert_ne.
  - by rewrite lookup_insert_eq, lookup_delete_eq.
Qed.

End Settings.

Section SettingsWitness.

Import config samples.

Lemma GetString_reads_what_was_stored_witness :
  SourceConfig_GetString (Config_Source config_without_uri) "database" ≠ EmptyString ∧
  source_Settings (Config_Source config_without_uri) !! "database"%string
    = Some (JString "mydb").
Proof.
  split; [discriminate|].
  destruct (GetString_reads_what_was_stored "mongodb"
              (source_Settings (Config_Source config_without_uri)) "database") as [H _].
  apply H. discriminate.
Defined.

End SettingsWitness.

Section Main.

Import config source main samples.

Context {float64 : Type}.
Implicit Types (ReadFile : string → string + list Byte.byte)
  (Unmarshal : list Byte.byte → string + Config float64)
  (Run : string → MongoDBSource mongo.Client → PostgreSQLSinkArgs → option string)
  (flag_config : option string) (cfg : Config float64).

(** The source and the sink arguments [main] builds from a configuration. *)
Lemma main_loaded ReadFile Unmarshal Run flag_config cfg :
  LoadFromFile ReadFile Unmarshal
    (match flag_config with Some p => p | None => "config.json"%string end) = inr cfg →
  source_Type (Config_Source cfg) = "mongodb"%string →
  sink_Type (Config_Sink cfg) = "postgresql"%string →
  main.main ReadFile Unmarshal Run flag_config
    = match Run (Name (Config_Pipeline cfg))
              (NewMongoDBSource
                 (SourceConfig_GetString (Config_Source cfg) "uri")
                 (SourceConfig_GetString (Config_Source cfg) "database")
                 (SourceConfig_GetString (Config_Source cfg) "collection"))
              (mkPostgreSQLSinkArgs
                 (SinkConfig_GetString (Config_Sink cfg) "connection_string")
                 (SinkConfig_GetString (Config_Sink cfg) "table")) with
      | Some err => Fatal ("Pipeline error: " ++ err)
      | None => Goodbye
      end.
Proof.
  intros Hload Hsrc Hsnk. unfold main.main. rewrite Hload.
  rewrite decide_True by done. by rewrite decide_True by done.
Qed.

(** X12.  [main] ends with [Goodbye!] exactly when the configuration file
    (the [-config] flag, [config.json] without it) was read and parsed, the
    source type is [mongodb], the sink type is [postgresql], and the pipeline
    built from the settings returned without an error; in every other case it
    ends in [Fatalf]. *)
Theorem main_goodbye_iff ReadFile Unmarshal Run flag_config :
  main.main ReadFile Unmarshal Run flag_config = Goodbye ↔
  ∃ data cfg,
    ReadFile (match flag_config with Some p => p | None => "config.json"%string end)
      = inr data ∧
    Unmarshal data = inr cfg ∧
    source_Type (Config_Source cfg) = "mongodb"%string ∧
    sink_Type (Config_Sink cfg) = "postgresql"%string ∧
    Run (Name (Config_Pipeline cfg))
        (NewMongoDBSource
           (SourceConfig_GetString (Config_Source cfg) "uri")
           (SourceConfig_GetString (Config_Source cfg) "database")
           (SourceConfig_GetString (Config_Source cfg) "collection"))
        (mkPostgreSQLSinkArgs
           (SinkConfig_GetString (Config_Sink cfg) "connection_string")
           (SinkConfig_GetString (Config_Sink cfg) "table")) = None.
Proof.
  split.
  - unfold main.main, LoadFromFile.
    destruct (ReadFile _) as [err|data] eqn:Hread; [done|].
    destruct (Unmarshal data) as [err|cfg] eqn:Hparse; [done|].
    destruct (decide (source_Type (Config_Source cfg) = "mongodb"%string)) as [Hsrc|]; [|done].
    destruct (decide (sink_Type (Config_Sink cfg) = "postgresql"%string)) as [Hsnk|]; [|done].
    destruct (Run _ _ _) as [err|] eqn:Hrun; [done|].
    intros _. by exists data, cfg.
  - intros (data & cfg & Hread & Hparse & Hsrc & Hsnk & Hrun).
    rewrite (main_loaded ReadFile Unmarshal Run flag_config cfg); [by rewrite Hrun| |done..].
    unfold LoadFromFile. by rewrite Hread, Hparse.
Qed.

(** X13.  [main] checks no setting: with a configuration that loads and names
    the types [mongodb] and [postgresql], a [uri] that is missing or not a
    string becomes the empty string, and the pipeline is built and run with
    that source all the same; how [main] ends is then up to the pipeline. *)
Theorem main_runs_without_uri ReadFile Unmarshal Run flag_config cfg :
  LoadFromFile ReadFile Unmarshal
    (match flag_config with Some p => p | None => "config.json"%string end) = inr cfg →
  source_Type (Config_Source cfg) = "mongodb"%string →
  sink_Type (Config_Sink cfg) = "postgresql"%string →
  (∀ val, source_Settings (Config_Source cfg) !! "uri"%string ≠ Some (JString val)) →
  ∃ src snk,
    uri src = EmptyString ∧ client src = None ∧
    main.main ReadFile Unmarshal Run flag_config
      = match Run (Name (Config_Pipeline cfg)) src snk with
        | Some err => Fatal ("Pipeline error: " ++ err)
        | None => Goodbye
        end.
Proof.
  intros Hload Hsrc Hsnk Huri.
  eexists _, _. split; [|split; [|by apply main_loaded]]; [|done].
  simpl. unfold SourceConfig_GetString.
  destruct (source_Settings (Config_Source cfg) !! "uri"%string) as [[]|] eqn:Hu; try done.
  by destruct (Huri s).
Qed.

(** X14.  The pipeline is not run unless the configuration loaded and both
    types are supported: when the file cannot be read or parsed, or the
    source type is not [mongodb], or the sink type is not [postgresql],
    [main] ends in [Fatalf] whatever the pipeline would do, and an
    unsupported source type is reported before the sink type is looked at. *)
Theorem main_fatal_before_run ReadFile Unmarshal Run flag_config :
  (∀ err,
     LoadFromFile ReadFile Unmarshal
       (match flag_config with Some p => p | None => "config.json"%string end) = inl err →
     main.main ReadFile Unmarshal Run flag_config
       = Fatal ("Failed to load configuration: " ++ err)) ∧
  (∀ cfg,
     LoadFromFile ReadFile Unmarshal
       (match flag_config with Some p => p | None => "config.json"%string end) = inr cfg →
     (source_Type (Config_Source cfg) ≠ "mongodb"%string →
        main.main ReadFile Unmarshal Run flag_config
          = Fatal ("Unsupported source type: " ++ source_Type (Config_Source cfg))) ∧
     (source_Type (Config_Source cfg) = "mongodb"%string →
      sink_Type (Config_Sink cfg) ≠ "postgresql"%string →
        main.main ReadFile Unmarshal Run flag_config
          = Fatal ("Unsupported sink type: " ++ sink_Type (Config_Sink cfg)))).
Proof.
  split.
  - intros err Hload. unfold main.main. by rewrite Hload.
  - intros cfg Hload. unfold main.main. rewrite Hload. split.
    + intros Hsrc. by rewrite decide_False.
    + intros Hsrc Hsnk. rewrite decide_True by done. by rewrite decide_False.
Qed.

End Main.

Section MainWitnesses.

Import config source main samples.

Lemma main_runs_without_uri_witness :
  source_Settings (Config_Source config_without_uri) !! "uri"%string = None ∧
  main.main (λ _, inr []) (λ _, inr config_without_uri)
    (λ _ src _, if decide (uri src = EmptyString)
                then Some "failed to connect to MongoDB: empty uri"%string
                else None) None
    = Fatal "Pipeline error: failed to connect to MongoDB: empty uri".
Proof.
  split; [reflexivity|].
  destruct (main_runs_without_uri (λ _, inr []) (λ _, inr config_without_uri)
              (λ _ src _, if decide (uri src = EmptyString)
                          then Some "failed to connect to MongoDB: empty uri"%string
                          else None) None
              config_without_uri eq_refl eq_refl eq_refl)
    as (src & snk & Huri & _ & Hmain).
  - intros val. discriminate.
  - etrans; [exact Hmain|]. simpl. by rewrite decide_True.
Defined.

Lemma main_fatal_before_run_witness :
  main.main (λ _, inl "open config.json: no such file or directory"%string)
    (λ _, inr config_without_uri) (λ _ _ _, None : option string) None
    = Fatal "Failed to load configuration: failed to read config file: open config.json: no such file or directory" ∧
  main.main (λ _, inr [])
    (λ _, inr (mkConfig (mkPipelineConfig "p")
                 (mkSourceConfig "MongoDB" (source_Settings (Config_Source config_without_uri)))
                 (mkSinkConfig "clickhouse" ∅)))
    (λ _ _ _, None) (Some "prod.json"%string)
    = Fatal "Unsupported source type: MongoDB".
Proof.
  destruct (main_fatal_before_run
              (λ _, inl "open config.json: no such file or directory"%string)
              (λ _, inr config_without_uri) (λ _ _ _, None : option string) None) as [Hload _].
  destruct (main_fatal_before_run (λ _, inr [])
              (λ _, inr (mkConfig (mkPipelineConfig "p")
                           (mkSourceConfig "MongoDB"
                              (source_Settings (Config_Source config_without_uri)))
                           (mkSinkConfig "clickhouse" ∅)))
              (λ _ _ _, None) (Some "prod.json"%string)) as [_ Htypes].
  split.
  - apply (Hload "failed to read config file: open config.json: no such file or directory"%string).
    reflexivity.
  - destruct (Htypes (mkConfig (mkPipelineConfig "p")
                        (mkSourceConfig "MongoDB"
                           (source_Settings (Config_Source config_without_uri)))
                        (mkSinkConfig "clickhouse" ∅)) eq_refl) as [Hsrc _].
    apply Hsrc. discriminate.
Defined.

End MainWitnesses.
